(** * Mail818 SDK: the cache manager and the offline queue

    A shallow embedding of [src/cache.ts] (class [CacheManager]) and
    [src/offline-queue.ts] (class [OfflineQueue]), of the replay of the
    queue in [src/form.ts] ([processOfflineQueue]) and of [generateULID]
    of the utilities, and the properties of this code.

    Modelling conventions.
    - Browser storage ([localStorage], [sessionStorage]) is a finite map
      from keys to strings, together with the log of the calls made on the
      [Storage] interface, so that "the storage is not touched" is a
      statement about the log as well as about the contents.
    - [Date.now()] is an argument of every function that reads the clock;
      numbers are integers ([Z], epoch milliseconds).
    - [JSON.stringify], [JSON.parse] and the quota policy of
      [Storage.setItem] belong to the host, not to the SDK: they are the
      fields of the class [Host].  [JSON.parse] is taken at the type the
      TypeScript annotation gives to its result ([CacheEntry],
      [QueueItem[]]), and [None] is a thrown exception; what the code
      does with JSON text of another shape is outside this reading.  For
      the queue it is the subject of [Untyped], where [loadQueue] is
      read on the parsed values with the coercions of the comparisons.
    - Exceptions are explicit: a computation returns a [completion]
      ([Normal] or [Throw]) and the state reached; [try_catch] is
      [try { } catch { }].
    - The queue lives in a heap: item objects and arrays are allocated
      and referred to by address, since [push], [splice] and
      [retryCount++] update them in place and [getAll] copies the array
      but shares the items.
    - [Math.random()] is an argument too: the text
      [Math.random().toString(36)] for the identifiers of the queue, the
      values of [Math.floor(Math.random() * 32)] for those of the
      utilities.  An [await] is a call: what other handlers do while a
      submission is under way is not modelled. *)

From Stdlib Require Import ZArith Ascii String List Lia DecimalString.
From stdpp Require Import gmap strings list fin_maps.

Local Open Scope Z_scope.

(** ** Exceptions and the state-and-exception monad *)

Inductive exn : Type :=
  | QuotaExceededError   (* DOMException, name 'QuotaExceededError' *)
  | SecurityError        (* any other DOMException *)
  | SyntaxError          (* JSON.parse *)
  | TypeError.           (* JSON.stringify, property access on null *)

Inductive completion (A : Type) : Type :=
  | Normal (a : A)
  | Throw (e : exn).
Arguments Normal {A} a.
Arguments Throw {A} e.

Definition M (St A : Type) : Type := St -> completion A * St.

Definition ret {St A} (a : A) : M St A := fun s => (Normal a, s).

Definition throw {St A} (e : exn) : M St A := fun s => (Throw e, s).

Definition bind {St A B} (m : M St A) (k : A -> M St B) : M St B :=
  fun s => match m s with
           | (Normal a, s') => k a s'
           | (Throw e, s') => (Throw e, s')
           end.

Definition try_catch {St A} (body : M St A) (handler : exn -> M St A) : M St A :=
  fun s => match body s with
           | (Normal a, s') => (Normal a, s')
           | (Throw e, s') => handler e s'
           end.

Notation "'let*' x ':=' m 'in' k" := (bind m (fun x => k))
  (at level 10, x name, m at level 100, k at level 200).
Notation "m ';;' k" := (bind m (fun _ => k))
  (at level 100, k at level 200, right associativity).

(** [keys.forEach(body)] *)
Fixpoint forEach {St A} (l : list A) (body : A -> M St unit) : M St unit :=
  match l with
  | [] => ret tt
  | x :: l' => body x ;; forEach l' body
  end.

(** ** Records of the two source files *)

Module CacheEntry.
Record t (D : Type) : Type := mk {
  data : D;
  timestamp : Z;
  etag : option string
}.
Arguments mk {D} _ _ _.
Arguments data {D} _.
Arguments timestamp {D} _.
Arguments etag {D} _.
End CacheEntry.

Module QueueItem.
Record t (D : Type) : Type := mk {
  id : string;
  data : D;
  timestamp : Z;
  retryCount : Z
}.
Arguments mk {D} _ _ _ _.
Arguments id {D} _.
Arguments data {D} _.
Arguments timestamp {D} _.
Arguments retryCount {D} _.
End QueueItem.

Inductive StorageKind : Type := localStorageKind | sessionStorageKind.

Module CacheOptions.
Record t : Type := mk {
  enabled : bool;
  ttl : Z;
  storage : StorageKind
}.
End CacheOptions.

Module OfflineOptions.
Record t : Type := mk {
  enabled : bool;
  queueSubmissions : bool;
  retryOnReconnect : bool
}.
End OfflineOptions.

(** ** The host: JSON and the storage quota *)

Class Host : Type := {
  (** the payloads, TypeScript's [unknown] *)
  Data : Type;
  (** [JSON.stringify(entry)]; [None] when it throws *)
  JSON_stringify_entry : CacheEntry.t Data -> option string;
  (** [JSON.parse(item)] read as a [CacheEntry]; [None] when it throws *)
  JSON_parse_entry : string -> option (CacheEntry.t Data);
  (** [JSON.stringify(this.queue)] *)
  JSON_stringify_queue : list (QueueItem.t Data) -> option string;
  (** [JSON.parse(stored)] read as a [QueueItem[]] *)
  JSON_parse_queue : string -> option (list (QueueItem.t Data));
  (** the exception [setItem(key, value)] throws on the given contents,
      if it throws *)
  setItem_throws : gmap string string -> string -> string -> option exn;
  (** [JSON.stringify] of an object or of an array is not the empty string *)
  JSON_stringify_entry_truthy :
    forall entry text, JSON_stringify_entry entry = Some text -> text <> EmptyString;
  JSON_stringify_queue_truthy :
    forall items text, JSON_stringify_queue items = Some text -> text <> EmptyString
}.

(** ** Browser storage *)

Inductive call : Type :=
  | GetItem (key : string)
  | SetItem (key value : string)
  | RemoveItem (key : string)
  | Key (i : nat)
  | Length.

(** [calls] has the latest call first. *)
Record Storage : Type := mkStorage {
  contents : gmap string string;
  calls : list call
}.

Definition log (c : call) (s : Storage) : Storage :=
  mkStorage (contents s) (c :: calls s).

Section StorageInterface.
Context `{Host}.

Definition getItem (key : string) : M Storage (option string) :=
  fun s => (Normal (contents s !! key), log (GetItem key) s).

Definition setItem (key value : string) : M Storage unit :=
  fun s =>
    match setItem_throws (contents s) key value with
    | Some e => (Throw e, log (SetItem key value) s)
    | None =>
        (Normal tt,
         mkStorage (<[key := value]> (contents s)) (SetItem key value :: calls s))
    end.

Definition removeItem (key : string) : M Storage unit :=
  fun s => (Normal tt, mkStorage (delete key (contents s)) (RemoveItem key :: calls s)).

Definition storage_length : M Storage nat :=
  fun s => (Normal (size (contents s)), log Length s).

(** [storage.key(i)]: the keys in the order the store enumerates them. *)
Definition storage_key (i : nat) : M Storage (option string) :=
  fun s => (Normal ((map_to_list (contents s)).*1 !! i), log (Key i) s).
End StorageInterface.

(** A string is truthy when it is not empty; [null] is falsy. *)
Definition truthy (item : option string) : option string :=
  match item with
  | Some EmptyString => None
  | other => other
  end.

(** [JSON.parse] and [JSON.stringify] as computations that may throw. *)
Definition parse_or_throw {St A} (r : option A) : M St A :=
  match r with
  | Some a => ret a
  | None => throw SyntaxError
  end.

Definition stringify_or_throw {St} (r : option string) : M St string :=
  match r with
  | Some s => ret s
  | None => throw TypeError
  end.

(** ** The heap and the browser window *)

Section World.
Context `{Host}.

(** Item objects and arrays of item references, by address; an address
    is an index, and allocation appends. *)
Record World : Type := mkWorld {
  objects : list (QueueItem.t Data);
  arrays : list (list nat);
  localStorage : Storage;
  sessionStorage : Storage
}.

Definition alloc_object (item : QueueItem.t Data) : M World nat :=
  fun w => (Normal (length (objects w)),
            mkWorld (objects w ++ [item]) (arrays w) (localStorage w) (sessionStorage w)).

Definition alloc_array (refs : list nat) : M World nat :=
  fun w => (Normal (length (arrays w)),
            mkWorld (objects w) (arrays w ++ [refs]) (localStorage w) (sessionStorage w)).

Definition read_array (a : nat) : M World (list nat) :=
  fun w => (Normal (default [] (arrays w !! a)), w).

Definition write_array (a : nat) (refs : list nat) : M World unit :=
  fun w => (Normal tt,
            mkWorld (objects w) (<[a := refs]> (arrays w)) (localStorage w) (sessionStorage w)).

Definition array_length (a : nat) : M World nat :=
  let* refs := read_array a in ret (length refs).

Definition read_object (r : nat) : M World (option (QueueItem.t Data)) :=
  fun w => (Normal (objects w !! r), w).

Definition write_object (r : nat) (item : QueueItem.t Data) : M World unit :=
  fun w => (Normal tt,
            mkWorld (<[r := item]> (objects w)) (arrays w) (localStorage w) (sessionStorage w)).

(** The items an array of references holds. *)
Definition deref (objs : list (QueueItem.t Data)) (refs : list nat)
  : list (QueueItem.t Data) :=
  omap (fun r => objs !! r) refs.

Definition read_items (a : nat) : M World (list (QueueItem.t Data)) :=
  fun w => (Normal (deref (objects w) (default [] (arrays w !! a))), w).

(** A storage computation run on [window.localStorage] or on
    [window.sessionStorage]. *)
Definition on_storage {A} (kind : StorageKind) (m : M Storage A) : M World A :=
  fun w =>
    match kind with
    | localStorageKind =>
        let (r, s) := m (localStorage w) in
        (r, mkWorld (objects w) (arrays w) s (sessionStorage w))
    | sessionStorageKind =>
        let (r, s) := m (sessionStorage w) in
        (r, mkWorld (objects w) (arrays w) (localStorage w) s)
    end.

Definition storage_of (kind : StorageKind) (w : World) : Storage :=
  match kind with
  | localStorageKind => localStorage w
  | sessionStorageKind => sessionStorage w
  end.
End World.

(** ** cache.ts *)

Module CacheManager.

Record t : Type := mk {
  options : CacheOptions.t
}.

(** [this.storage], chosen by the constructor from the options *)
Definition storage (this : t) : StorageKind := CacheOptions.storage (options this).

Definition prefix : string := "mail818_".

Section Methods.
Context `{Host}.

(** The first loop of [cleanExpired] and of [clear]:
    [for (let i = 0; i < this.storage.length; i++)], collecting the keys
    that start with the prefix.  [fuel] bounds the iterations. *)
Fixpoint collect_keys (pfx : string) (fuel i : nat) (keys : list string)
  : M Storage (list string) :=
  match fuel with
  | O => ret keys
  | S fuel' =>
      let* n := storage_length in
      if (i <? n)%nat then
        let* key := storage_key i in
        collect_keys pfx fuel' (S i)
          (match key with
           | Some k => if String.prefix pfx k then keys ++ [k] else keys
           | None => keys
           end)
      else ret keys
  end.

Definition prefixed_keys (pfx : string) : M Storage (list string) :=
  fun s => collect_keys pfx (S (size (contents s))) 0 [] s.

(** The body of [keys.forEach] in [cleanExpired]. *)
Definition clean_entry (this : t) (now : Z) (key : string)
  : M Storage unit :=
  try_catch
    (let* item := getItem key in
     match truthy item with
     | Some item =>
         let* entry := parse_or_throw (JSON_parse_entry item) in
         if now - CacheEntry.timestamp entry >? CacheOptions.ttl (options this)
         then removeItem key
         else ret tt
     | None => ret tt
     end)
    (fun _ => removeItem key).

Definition cleanExpired (this : t) (now : Z) : M Storage unit :=
  let* keys := prefixed_keys prefix in
  forEach keys (clean_entry this now).

(** [get(key)]; [None] is [null]. *)
Definition get (this : t) (now : Z) (key : string)
  : M Storage (option Data) :=
  if negb (CacheOptions.enabled (options this)) then ret None
  else
    try_catch
      (let* item := getItem (prefix +:+ key) in
       match truthy item with
       | None => ret None
       | Some item =>
           let* entry := parse_or_throw (JSON_parse_entry item) in
           if now - CacheEntry.timestamp entry >? CacheOptions.ttl (options this)
           then removeItem (prefix +:+ key) ;; ret None
           else ret (Some (CacheEntry.data entry))
       end)
      (fun _ => ret None).

(** The body of both [try] blocks of [set]. *)
Definition write_entry (this : t) (now : Z) (key : string)
    (value : Data) (etag : option string) : M Storage unit :=
  let entry := CacheEntry.mk value now etag in
  let* text := stringify_or_throw (JSON_stringify_entry entry) in
  setItem (prefix +:+ key) text.

(** [set(key, value, etag)].  The clock is read for the first write
    ([now]), by the sweep ([now_sweep]) and for the second write
    ([now_retry]). *)
Definition set (this : t) (now now_sweep now_retry : Z)
    (key : string) (value : Data) (etag : option string) : M Storage unit :=
  if negb (CacheOptions.enabled (options this)) then ret tt
  else
    try_catch
      (write_entry this now key value etag)
      (fun error =>
         match error with
         | QuotaExceededError =>
             cleanExpired this now_sweep ;;
             try_catch
               (write_entry this now_retry key value etag)
               (fun _ => ret tt)
         | _ => ret tt
         end).

Definition getETag (this : t) (key : string) : M Storage (option string) :=
  try_catch
    (let* item := getItem (prefix +:+ key) in
     match truthy item with
     | None => ret None
     | Some item =>
         let* entry := parse_or_throw (JSON_parse_entry item) in
         ret (truthy (CacheEntry.etag entry))
     end)
    (fun _ => ret None).

Definition remove (this : t) (key : string) : M Storage unit :=
  removeItem (prefix +:+ key).

Definition clear (this : t) : M Storage unit :=
  let* keys := prefixed_keys prefix in
  forEach keys removeItem.

(** The loop of [getSize]: [size] grows by [key.length + value.length]
    for each key with the prefix whose value is truthy. *)
Fixpoint measure_keys (fuel i : nat) (size : nat) : M Storage nat :=
  match fuel with
  | O => ret size
  | S fuel' =>
      let* n := storage_length in
      if (i <? n)%nat then
        let* key := storage_key i in
        match key with
        | Some k =>
            if String.prefix prefix k then
              let* value := getItem k in
              match truthy value with
              | Some v =>
                  measure_keys fuel' (S i) (size + (String.length k + String.length v))%nat
              | None => measure_keys fuel' (S i) size
              end
            else measure_keys fuel' (S i) size
        | None => measure_keys fuel' (S i) size
        end
      else ret size
  end.

Definition getSize (this : t) : M Storage nat :=
  fun s => measure_keys (S (size (contents s))) 0 0 s.

(** [new CacheManager(options)] *)
Definition new (opts : CacheOptions.t) (now : Z) : M World t :=
  let this := mk opts in
  on_storage (storage this) (cleanExpired this now) ;;
  ret this.
End Methods.

End CacheManager.

(** ** Strings and numbers of the host language *)

(** [c.toUpperCase()], for a character of the ASCII range *)
Definition upper_ascii (c : ascii) : ascii :=
  let n := N_of_ascii c in
  if ((97 <=? n) && (n <=? 122))%N then ascii_of_N (n - 32) else c.

(** [s.toUpperCase()] *)
Fixpoint toUpperCase (s : string) : string :=
  match s with
  | EmptyString => EmptyString
  | String c s' => String (upper_ascii c) (toUpperCase s')
  end.

(** [s.padStart(n, c)] for a filler [c] of one character *)
Definition padStart (n : nat) (c : ascii) (s : string) : string :=
  string_of_list_ascii (repeat c (n - String.length s)%nat) +:+ s.

(** The digit [d] of [toString(36)]: '0'..'9', then 'a'..'z' *)
Definition digit36 (d : Z) : ascii :=
  ascii_of_N (Z.to_N (if d <? 10 then 48 + d else 87 + d)).

(** The digits of [n] in base 36, the most significant first, put before
    [acc]; [fuel] bounds their number. *)
Fixpoint digits36 (fuel : nat) (n : Z) (acc : string) : string :=
  match fuel with
  | O => acc
  | S fuel' =>
      let acc' := String (digit36 (n mod 36)) acc in
      if n / 36 =? 0 then acc' else digits36 fuel' (n / 36) acc'
  end.

(** [n.toString(36)] for an integer [n] (as [Date.now()] returns) *)
Definition toString36 (n : Z) : string :=
  if n <? 0 then String "-" (digits36 (S (Z.to_nat (Z.log2 (- n)))) (- n) "")
  else digits36 (S (Z.to_nat (Z.log2 n))) n "".

(** ** offline-queue.ts *)

Module OfflineQueue.

Record t : Type := mk {
  options : OfflineOptions.t;
  queue : nat   (* the address of the array [this.queue] *)
}.

Definition storageKey : string := "mail818_offline_queue".
Definition maxRetries : Z := 3.

(** [this.queue = ...] *)
Definition set_queue (this : t) (a : nat) : t := mk (options this) a.

(** [generateULID()]; [now] is [Date.now()] and [random] the text
    [Math.random().toString(36)]. *)
Definition generateULID (now : Z) (random : string) : string :=
  let timestampStr := padStart 10 "0" (toUpperCase (toString36 now)) in
  let randomStr := padStart 16 "0" (toUpperCase (substring 2 16 random)) in
  substring 0 26 (timestampStr +:+ randomStr).

Section Methods.
Context `{Host}.

(** [i => i.id === item.id], on a reference *)
Definition id_matches (objs : list (QueueItem.t Data)) (item : QueueItem.t Data)
    (r : nat) : Prop :=
  QueueItem.id <$> objs !! r = Some (QueueItem.id item).

#[global] Instance id_matches_dec objs item r : Decision (id_matches objs item r).
Proof. unfold id_matches. apply _. Defined.

Definition saveQueue (this : t) : M World unit :=
  try_catch
    (let* n := array_length (queue this) in
     if (n =? 0)%nat
     then on_storage localStorageKind (removeItem storageKey)
     else
       let* items := read_items (queue this) in
       let* text := stringify_or_throw (JSON_stringify_queue items) in
       on_storage localStorageKind (setItem storageKey text))
    (fun _ => ret tt).

(** [JSON.parse(stored)]: the parsed items are new objects, in a new
    array. *)
Fixpoint alloc_objects (items : list (QueueItem.t Data)) : M World (list nat) :=
  match items with
  | [] => ret []
  | item :: rest =>
      let* r := alloc_object item in
      let* rs := alloc_objects rest in
      ret (r :: rs)
  end.

Definition JSON_parse_array (stored : string) : M World nat :=
  let* parsed := parse_or_throw (JSON_parse_queue stored) in
  let* refs := alloc_objects parsed in
  alloc_array refs.

(** [items.filter(pred)]: a new array with the references kept. *)
Definition array_filter (pred : QueueItem.t Data -> bool) (a : nat) : M World nat :=
  let* refs := read_array a in
  fun w =>
    alloc_array
      (List.filter (fun r => match objects w !! r with
                             | Some item => pred item
                             | None => false
                             end) refs) w.

Definition loadQueue (this : t) (now : Z) : M World t :=
  try_catch
    (let* stored := on_storage localStorageKind (getItem storageKey) in
     match truthy stored with
     | Some stored =>
         let* items := JSON_parse_array stored in
         let cutoff := now - 7 * 24 * 60 * 60 * 1000 in
         let* kept :=
           array_filter
             (fun item => (QueueItem.timestamp item >? cutoff)
                          && (QueueItem.retryCount item <? maxRetries))
             items in
         let this := set_queue this kept in
         let* n := array_length (queue this) in
         let* m := array_length items in
         if negb (n =? m)%nat then saveQueue this ;; ret this else ret this
     | None => ret this
     end)
    (fun _ =>
       let* empty := alloc_array [] in
       ret (set_queue this empty)).

(** [new OfflineQueue(options)] *)
Definition new (opts : OfflineOptions.t) (now : Z) : M World t :=
  let* empty := alloc_array [] in
  let this := mk opts empty in
  if OfflineOptions.enabled opts then loadQueue this now else ret this.

(** [add(data)]; [ulid] is the identifier [generateULID()] returns. *)
Definition add (this : t) (ulid : string) (now : Z) (data : Data)
  : M World unit :=
  if negb (OfflineOptions.queueSubmissions (options this)) then ret tt
  else
    let* item := alloc_object (QueueItem.mk ulid data now 0) in
    let* refs := read_array (queue this) in
    write_array (queue this) (refs ++ [item]) ;;
    saveQueue this.

(** [getAll()]: the address of the new array. *)
Definition getAll (this : t) : M World nat :=
  let* refs := read_array (queue this) in
  alloc_array refs.

Definition remove (this : t) (item : QueueItem.t Data)
  : M World unit :=
  let* refs := read_array (queue this) in
  fun w =>
    match list_find (id_matches (objects w) item) refs with
    | Some (index, _) =>
        (write_array (queue this) (delete index refs) ;;
         saveQueue this) w
    | None => ret tt w
    end.

Definition incrementRetry (this : t) (item : QueueItem.t Data)
  : M World bool :=
  let* refs := read_array (queue this) in
  fun w =>
    match list_find (id_matches (objects w) item) refs with
    | Some (_, r) =>
        match objects w !! r with
        | Some queueItem =>
            let incremented :=
              QueueItem.mk (QueueItem.id queueItem) (QueueItem.data queueItem)
                (QueueItem.timestamp queueItem) (QueueItem.retryCount queueItem + 1) in
            (write_object r incremented ;;
             saveQueue this ;;
             let* queueItem := read_object r in
             ret (match queueItem with
                  | Some queueItem => QueueItem.retryCount queueItem <? maxRetries
                  | None => false
                  end)) w
        | None => ret false w
        end
    | None => ret false w
    end.

Definition clear (this : t) : M World t :=
  let* empty := alloc_array [] in
  let this := set_queue this empty in
  saveQueue this ;;
  ret this.

Definition size (this : t) : M World nat :=
  array_length (queue this).
End Methods.

End OfflineQueue.

(** ** form.ts: replaying the queue *)

Module Mail818Form.

Section Methods.
Context `{Host}.

(** The loop of [processOfflineQueue]: [for (const item of items)], on
    the elements of the array from index [i] on.  [delivered i] tells
    whether [await this.apiClient.submitForm(item.data)] resolves for
    the element of index [i]; when it rejects, the [catch] logs and the
    loop goes on.  No other handler is taken to run at the [await]. *)
Fixpoint replay (offlineQueue : OfflineQueue.t) (delivered : nat -> bool) (i : nat)
    (items : list nat) : M World unit :=
  match items with
  | [] => ret tt
  | r :: rest =>
      (if delivered i then
         let* item := read_object r in
         match item with
         | Some item => OfflineQueue.remove offlineQueue item
         | None => ret tt
         end
       else ret tt) ;;
      replay offlineQueue delivered (S i) rest
  end.

(** [processOfflineQueue()]; [onLine] is [navigator.onLine]. *)
Definition processOfflineQueue (offlineQueue : option OfflineQueue.t) (onLine : bool)
    (delivered : nat -> bool) : M World unit :=
  match offlineQueue with
  | Some queue =>
      if negb onLine then ret tt
      else
        let* items := OfflineQueue.getAll queue in
        let* refs := read_array items in
        replay queue delivered 0 refs
  | None => ret tt
  end.
End Methods.

End Mail818Form.

(** ** The utilities: [generateULID] *)

Module Utils.

Definition ENCODING : string := "0123456789ABCDEFGHJKMNPQRSTVWXYZ".
Definition TIME_MAX : Z := 2 ^ 48 - 1.
Definition RANDOM_LEN : nat := 16.

(** [s[i]] as an operand of [+]: the character, or the text of
    [undefined] where the string has none. *)
Definition char_at (s : string) (i : Z) : string :=
  if i <? 0 then "undefined"
  else match String.get (Z.to_nat i) s with
       | Some c => String c EmptyString
       | None => "undefined"
       end.

(** The loop [for (let i = 9; i >= 0; i--)], with [count] turns left. *)
Fixpoint encode_time (count : nat) (time : Z) (timestamp : string) : string :=
  match count with
  | O => timestamp
  | S count' =>
      let mod_ := Z.rem time 32 in
      encode_time count' (time / 32) (char_at ENCODING mod_ +:+ timestamp)
  end.

(** The loop [for (let i = 0; i < RANDOM_LEN; i++)] from turn [i] on;
    [draw i] is the value of [Math.floor(Math.random() * 32)] in turn
    [i]. *)
Fixpoint encode_random (count i : nat) (draw : nat -> Z) (random : string) : string :=
  match count with
  | O => random
  | S count' =>
      encode_random count' (S i) draw (random +:+ char_at ENCODING (draw i))
  end.

(** [generateULID()]; [None] is [throw new Error('ULID timestamp too
    large')]. *)
Definition generateULID (now : Z) (draw : nat -> Z) : option string :=
  if now >? TIME_MAX then None
  else Some (encode_time 10 now EmptyString
             +:+ encode_random RANDOM_LEN 0 draw EmptyString).

End Utils.

(** ** A reference host

    JSON values with integer numbers, a printer that writes what
    [JSON.stringify] writes for them and a recursive-descent parser; the
    quota of a store is a bound on the characters of its keys and values.
    The theorems below hold for every host; this one instantiates them. *)

Module Json.

#[local] Set Warnings "-register-all".

Inductive value : Type :=
  | Null
  | Bool (b : bool)
  | Number (n : Z)
  | String (s : string)
  | Array (elements : list value)
  | Object (members : list (string * value)).

Definition quote : ascii := "034"%char.
Definition backslash : ascii := "092"%char.

(** The escapes of the quote and of the backslash; the strings printed
    here have no control character, which [JSON.stringify] escapes
    too. *)
Fixpoint escape (s : string) : string :=
  match s with
  | EmptyString => EmptyString
  | String.String c rest =>
      if Ascii.eqb c quote then String.String backslash (String.String quote (escape rest))
      else if Ascii.eqb c backslash
           then String.String backslash (String.String backslash (escape rest))
           else String.String c (escape rest)
  end.

Definition print_string (s : string) : string :=
  String.String quote (escape s +:+ String.String quote EmptyString).

Definition print_number (n : Z) : string :=
  DecimalString.NilZero.string_of_int (Z.to_int n).

Fixpoint print (v : value) : string :=
  match v with
  | Null => "null"
  | Bool true => "true"
  | Bool false => "false"
  | Number n => print_number n
  | String s => print_string s
  | Array elements =>
      "[" +:+ (fix go (l : list value) : string :=
                 match l with
                 | [] => EmptyString
                 | [v] => print v
                 | v :: l' => print v +:+ "," +:+ go l'
                 end) elements +:+ "]"
  | Object members =>
      "{" +:+ (fix go (l : list (string * value)) : string :=
                 match l with
                 | [] => EmptyString
                 | [(k, v)] => print_string k +:+ ":" +:+ print v
                 | (k, v) :: l' => print_string k +:+ ":" +:+ print v +:+ "," +:+ go l'
                 end) members +:+ "}"
  end.

Definition is_space (c : ascii) : bool :=
  Ascii.eqb c " "%char || Ascii.eqb c "009"%char
  || Ascii.eqb c "010"%char || Ascii.eqb c "013"%char.

Fixpoint skip_space (s : string) : string :=
  match s with
  | String.String c rest => if is_space c then skip_space rest else s
  | EmptyString => s
  end.

Definition digit (c : ascii) : option Z :=
  let n := Z.of_nat (Ascii.nat_of_ascii c) in
  if (48 <=? n) && (n <=? 57) then Some (n - 48) else None.

Fixpoint parse_digits (s : string) (acc : Z) : Z * string :=
  match s with
  | String.String c rest =>
      match digit c with
      | Some d => parse_digits rest (10 * acc + d)
      | None => (acc, s)
      end
  | EmptyString => (acc, s)
  end.

(** the text after the opening quote, up to the closing one *)
Fixpoint parse_chars (s : string) : option (string * string) :=
  match s with
  | EmptyString => None
  | String.String c rest =>
      if Ascii.eqb c quote then Some (EmptyString, rest)
      else if Ascii.eqb c backslash then
        match rest with
        | String.String e rest' =>
            let unescaped :=
              if Ascii.eqb e "n"%char then Some "010"%char
              else if Ascii.eqb e "t"%char then Some "009"%char
              else if Ascii.eqb e "r"%char then Some "013"%char
              else if Ascii.eqb e quote || Ascii.eqb e backslash || Ascii.eqb e "/"%char
                   then Some e
                   else None in
            match unescaped, parse_chars rest' with
            | Some u, Some (text, after) => Some (String.String u text, after)
            | _, _ => None
            end
        | EmptyString => None
        end
      else
        match parse_chars rest with
        | Some (text, after) => Some (String.String c text, after)
        | None => None
        end
  end.

Definition expect (word : string) (v : value) (s : string) : option (value * string) :=
  if String.prefix word s
  then Some (v, String.substring (String.length word) (String.length s - String.length word) s)
  else None.

Fixpoint parse_value (fuel : nat) (s : string) : option (value * string) :=
  match fuel with
  | O => None
  | S fuel =>
      match skip_space s with
      | EmptyString => None
      | String.String c rest =>
          if Ascii.eqb c "n"%char then expect "null" Null (String.String c rest)
          else if Ascii.eqb c "t"%char then expect "true" (Bool true) (String.String c rest)
          else if Ascii.eqb c "f"%char then expect "false" (Bool false) (String.String c rest)
          else if Ascii.eqb c quote then
            match parse_chars rest with
            | Some (text, after) => Some (String text, after)
            | None => None
            end
          else if Ascii.eqb c "-"%char then
            match rest with
            | String.String d _ =>
                match digit d with
                | Some _ => let (n, after) := parse_digits rest 0 in Some (Number (- n), after)
                | None => None
                end
            | EmptyString => None
            end
          else if Ascii.eqb c "["%char then
            match skip_space rest with
            | String.String d after =>
                if Ascii.eqb d "]"%char then Some (Array [], after)
                else parse_elements fuel rest []
            | EmptyString => None
            end
          else if Ascii.eqb c "{"%char then
            match skip_space rest with
            | String.String d after =>
                if Ascii.eqb d "}"%char then Some (Object [], after)
                else parse_members fuel rest []
            | EmptyString => None
            end
          else
            match digit c with
            | Some _ =>
                let (n, after) := parse_digits (String.String c rest) 0 in
                Some (Number n, after)
            | None => None
            end
      end
  end
with parse_elements (fuel : nat) (s : string) (acc : list value)
  : option (value * string) :=
  match fuel with
  | O => None
  | S fuel =>
      match parse_value fuel s with
      | Some (v, after) =>
          match skip_space after with
          | String.String c rest =>
              if Ascii.eqb c ","%char then parse_elements fuel rest (v :: acc)
              else if Ascii.eqb c "]"%char then Some (Array (rev (v :: acc)), rest)
              else None
          | EmptyString => None
          end
      | None => None
      end
  end
with parse_members (fuel : nat) (s : string) (acc : list (string * value))
  : option (value * string) :=
  match fuel with
  | O => None
  | S fuel =>
      match skip_space s with
      | String.String q rest =>
          if Ascii.eqb q quote then
            match parse_chars rest with
            | Some (key, after) =>
                match skip_space after with
                | String.String c rest =>
                    if Ascii.eqb c ":"%char then
                      match parse_value fuel rest with
                      | Some (v, after) =>
                          match skip_space after with
                          | String.String c rest =>
                              if Ascii.eqb c ","%char
                              then parse_members fuel rest ((key, v) :: acc)
                              else if Ascii.eqb c "}"%char
                                   then Some (Object (rev ((key, v) :: acc)), rest)
                                   else None
                          | EmptyString => None
                          end
                      | None => None
                      end
                    else None
                | EmptyString => None
                end
            | None => None
            end
          else None
      | EmptyString => None
      end
  end.

(** [JSON.parse(text)]: one value, and nothing but white space after it. *)
Definition parse (text : string) : option value :=
  match parse_value (S (String.length text)) text with
  | Some (v, after) =>
      match skip_space after with
      | EmptyString => Some v
      | _ => None
      end
  | None => None
  end.

Definition member (key : string) (v : value) : option value :=
  match v with
  | Object members => snd <$> List.find (fun kv => String.eqb (fst kv) key) members
  | _ => None
  end.

Definition of_entry (e : CacheEntry.t value) : value :=
  Object ([("data", CacheEntry.data e); ("timestamp", Number (CacheEntry.timestamp e))]
          ++ match CacheEntry.etag e with
             | Some tag => [("etag", String tag)]
             | None => []
             end).

(** The typed reading of a parsed value, as a [CacheEntry]: defined on
    the values [of_entry] gives (members in any order).  It answers [None]
    for a value of another shape, on which the code does not throw; such
    text is not among the inputs the properties are run on. *)
Definition to_entry (v : value) : option (CacheEntry.t value) :=
  match member "data" v, member "timestamp" v with
  | Some d, Some (Number ts) =>
      match member "etag" v with
      | Some (String tag) => Some (CacheEntry.mk d ts (Some tag))
      | Some _ => None
      | None => Some (CacheEntry.mk d ts None)
      end
  | _, _ => None
  end.

Definition of_item (i : QueueItem.t value) : value :=
  Object [("id", String (QueueItem.id i)); ("data", QueueItem.data i);
          ("timestamp", Number (QueueItem.timestamp i));
          ("retryCount", Number (QueueItem.retryCount i))].

(** The typed reading of a parsed value, as a [QueueItem]; [None] for a
    value of another shape, as for [to_entry].  What [loadQueue] does
    with such a value is in [Untyped]. *)
Definition to_item (v : value) : option (QueueItem.t value) :=
  match member "id" v, member "data" v, member "timestamp" v, member "retryCount" v with
  | Some (String i), Some d, Some (Number ts), Some (Number rc) =>
      Some (QueueItem.mk i d ts rc)
  | _, _, _, _ => None
  end.

Definition to_items (v : value) : option (list (QueueItem.t value)) :=
  match v with
  | Array elements => mapM to_item elements
  | _ => None
  end.

(** the characters a store holds *)
Definition used (m : gmap string string) : nat :=
  map_fold (fun k v n => (String.length k + String.length v + n)%nat) 0%nat m.

(** [quota]: the characters the store accepts, [None] for no bound. *)
Definition host (quota : option nat) : Host := {|
  Data := value;
  JSON_stringify_entry e := Some (print (of_entry e));
  JSON_parse_entry text := parse text ≫= to_entry;
  JSON_stringify_queue items := Some (print (Array (of_item <$> items)));
  JSON_parse_queue text := parse text ≫= to_items;
  setItem_throws m key value :=
    match quota with
    | Some bound =>
        if (bound <? used (<[key := value]> m))%nat then Some QuotaExceededError else None
    | None => None
    end;
  JSON_stringify_entry_truthy :=
    ltac:(intros entry text [= <-]; discriminate);
  JSON_stringify_queue_truthy :=
    ltac:(intros items text [= <-]; discriminate)
|}.

End Json.

(** ** [loadQueue] on text of any shape

    [JSON.parse] returns whatever value the text denotes: the annotation
    [QueueItem[]] is not checked when the code runs.  Here the
    constructor and [loadQueue] are read on the parsed values themselves,
    with the coercions of [>] and [<].  Nothing is updated in place on
    this path, so the queue is the list of its values.  The engine is
    given by three functions: [JSON.parse], [JSON.stringify] of the
    queue, and [ToNumber] of a string, an array or an object, which goes
    through [ToPrimitive] and may throw. *)

Module Untyped.

(** The result of [ToNumber]; [NaN] makes every comparison false. *)
Inductive number : Type :=
  | NaN
  | Num (n : Z).

Record t : Type := mk {
  options : OfflineOptions.t;
  queue : list Json.value
}.

(** [this.queue = ...] *)
Definition set_queue (this : t) (q : list Json.value) : t := mk (options this) q.

(** The value of the member [name] of a parsed object: of the last one,
    when the text has several. *)
Fixpoint last_member (name : string) (members : list (string * Json.value))
  : option Json.value :=
  match members with
  | [] => None
  | (k, v) :: rest =>
      match last_member name rest with
      | Some v' => Some v'
      | None => if String.eqb k name then Some v else None
      end
  end.

(** [v.name] for a name that no prototype defines, as [timestamp] and
    [retryCount]: [None] is [undefined]; reading a property of [null]
    throws. *)
Definition property {St} (name : string) (v : Json.value) : M St (option Json.value) :=
  match v with
  | Json.Null => throw TypeError
  | Json.Object members => ret (last_member name members)
  | _ => ret None
  end.

(** [x > n] and [x < n] for numbers *)
Definition greater_than (x : number) (n : Z) : bool :=
  match x with
  | NaN => false
  | Num m => m >? n
  end.

Definition less_than (x : number) (n : Z) : bool :=
  match x with
  | NaN => false
  | Num m => m <? n
  end.

Section Methods.
Context `{Host}.
(** [JSON.parse(text)]; [None] when it throws *)
Variable JSON_parse : string -> option Json.value.
(** [JSON.stringify(this.queue)]; [None] when it throws *)
Variable JSON_stringify : list Json.value -> option string.
(** [ToNumber] of a string, an array or an object *)
Variable ToNumber : Json.value -> completion number.

(** [ToNumber] of the operand of a comparison with a number; [None] is
    [undefined]. *)
Definition to_number {St} (v : option Json.value) : M St number :=
  match v with
  | None => ret NaN
  | Some Json.Null => ret (Num 0)
  | Some (Json.Bool b) => ret (Num (if b then 1 else 0))
  | Some (Json.Number n) => ret (Num n)
  | Some other => fun s => (ToNumber other, s)
  end.

(** The callback of [filter]:
    [item.timestamp > cutoff && item.retryCount < this.maxRetries]. *)
Definition keeps {St} (cutoff : Z) (item : Json.value) : M St bool :=
  let* timestamp := property "timestamp" item in
  let* timestamp := to_number timestamp in
  if greater_than timestamp cutoff then
    let* retryCount := property "retryCount" item in
    let* retryCount := to_number retryCount in
    ret (less_than retryCount OfflineQueue.maxRetries)
  else ret false.

(** [elements.filter(callback)], element by element *)
Fixpoint filter_elements {St} (cutoff : Z) (elements : list Json.value)
  : M St (list Json.value) :=
  match elements with
  | [] => ret []
  | item :: rest =>
      let* keep := keeps cutoff item in
      let* kept := filter_elements cutoff rest in
      ret (if keep then item :: kept else kept)
  end.

(** [items.filter(callback)]: only an array has the method. *)
Definition filter {St} (cutoff : Z) (items : Json.value) : M St (list Json.value) :=
  match items with
  | Json.Array elements => filter_elements cutoff elements
  | _ => throw TypeError
  end.

(** [items.length], after [items.filter] has returned *)
Definition length_of (items : Json.value) : nat :=
  match items with
  | Json.Array elements => length elements
  | _ => 0%nat
  end.

Definition saveQueue (this : t) : M Storage unit :=
  try_catch
    (if (length (queue this) =? 0)%nat
     then removeItem OfflineQueue.storageKey
     else
       let* text := stringify_or_throw (JSON_stringify (queue this)) in
       setItem OfflineQueue.storageKey text)
    (fun _ => ret tt).

Definition loadQueue (this : t) (now : Z) : M Storage t :=
  try_catch
    (let* stored := getItem OfflineQueue.storageKey in
     match truthy stored with
     | Some stored =>
         let* items := parse_or_throw (JSON_parse stored) in
         let cutoff := now - 7 * 24 * 60 * 60 * 1000 in
         let* kept := filter cutoff items in
         let this := set_queue this kept in
         if negb (length (queue this) =? length_of items)%nat
         then saveQueue this ;; ret this
         else ret this
     | None => ret this
     end)
    (fun _ => ret (set_queue this [])).

(** [new OfflineQueue(options)] *)
Definition new (opts : OfflineOptions.t) (now : Z) : M Storage t :=
  let this := mk opts [] in
  if OfflineOptions.enabled opts then loadQueue this now else ret this.

End Methods.

(** [getAll()] and [size()] *)
Definition getAll (this : t) : list Json.value := queue this.

Definition size (this : t) : nat := length (queue this).

End Untyped.

(** * Specification

    The definitions the properties are stated with. *)

(** The [setItem] calls in the log, latest first. *)
Definition attempts (s : Storage) : list (string * string) :=
  omap (fun c => match c with SetItem k v => Some (k, v) | _ => None end) (calls s).

Section Specification.
Context `{Host}.
Implicit Types (s : Storage) (w : World) (item : QueueItem.t Data).

(** What the sweep removes: an entry that does not parse, or whose age
    exceeds the time to live. *)
Definition stale (this : CacheManager.t) (now : Z) (item : option string) : bool :=
  match truthy item with
  | Some item =>
      match JSON_parse_entry item with
      | Some entry =>
          now - CacheEntry.timestamp entry >? CacheOptions.ttl (CacheManager.options this)
      | None => true
      end
  | None => false
  end.

(** The sweep, key by key. *)
Definition sweep_keys (this : CacheManager.t) (now : Z) (keys : list string)
    (m : gmap string string) : gmap string string :=
  foldl (fun m key => if stale this now (m !! key) then delete key m else m) m keys.

(** The contents of a store after the sweep. *)
Definition swept (this : CacheManager.t) (now : Z) (m : gmap string string)
  : gmap string string :=
  filter (fun kv => ~ (String.prefix CacheManager.prefix kv.1 = true
                       /\ stale this now (Some kv.2) = true)) m.

(** A call of [get] or of [set], with the clock readings it makes. *)
Inductive cache_call : Type :=
  | CallGet (now : Z) (key : string)
  | CallSet (now now_sweep now_retry : Z) (key : string) (value : Data)
      (etag : option string).

(** A sequence of calls; the result is what the [get]s returned. *)
Fixpoint run_calls (this : CacheManager.t) (cs : list cache_call)
  : M Storage (list (option Data)) :=
  match cs with
  | [] => ret []
  | CallGet now key :: cs =>
      let* r := CacheManager.get this now key in
      let* rs := run_calls this cs in
      ret (r :: rs)
  | CallSet now now_sweep now_retry key value etag :: cs =>
      CacheManager.set this now now_sweep now_retry key value etag ;;
      run_calls this cs
  end.

Definition gets (cs : list cache_call) : list cache_call :=
  List.filter (fun c => match c with CallGet _ _ => true | _ => false end) cs.

(** What [get] returns for what the store holds under the key. *)
Definition cached_value (this : CacheManager.t) (now : Z) (stored : option string)
  : option Data :=
  match truthy stored with
  | Some item =>
      match JSON_parse_entry item with
      | Some entry =>
          if now - CacheEntry.timestamp entry >? CacheOptions.ttl (CacheManager.options this)
          then None
          else Some (CacheEntry.data entry)
      | None => None
      end
  | None => None
  end.

(** What [getSize] counts: the characters of the keys with the prefix
    and of their values, when the value is not empty. *)
Definition counted (kv : string * string) : nat :=
  if String.prefix CacheManager.prefix kv.1
  then match kv.2 with
       | EmptyString => 0%nat
       | _ => (String.length kv.1 + String.length kv.2)%nat
       end
  else 0%nat.

Definition cached_size (m : gmap string string) : nat :=
  map_fold (fun k v n => (counted (k, v) + n)%nat) 0%nat m.

(** The references an array holds, and the items they refer to. *)
Definition refs_of w (a : nat) : list nat := default [] (arrays w !! a).
Definition items_of w (a : nat) : list (QueueItem.t Data) :=
  deref (objects w) (refs_of w a).

(** The array of the queue is allocated, and its elements are distinct
    allocated objects. *)
Definition wf w (this : OfflineQueue.t) : Prop :=
  (OfflineQueue.queue this < length (arrays w))%nat
  /\ NoDup (refs_of w (OfflineQueue.queue this))
  /\ Forall (fun r => (r < length (objects w))%nat) (refs_of w (OfflineQueue.queue this)).

Definition set_local w (s : Storage) : World :=
  mkWorld (objects w) (arrays w) s (sessionStorage w).

(** What [saveQueue] does to [localStorage], for a queue of [items]. *)
Definition save_storage (items : list (QueueItem.t Data)) (s : Storage) : Storage :=
  if (length items =? 0)%nat then (removeItem OfflineQueue.storageKey s).2
  else match JSON_stringify_queue items with
       | None => s
       | Some text => (setItem OfflineQueue.storageKey text s).2
       end.

(** [item => item.timestamp > cutoff && item.retryCount < this.maxRetries] *)
Definition retained (now : Z) item : bool :=
  (QueueItem.timestamp item >? now - 7 * 24 * 60 * 60 * 1000)
  && (QueueItem.retryCount item <? OfflineQueue.maxRetries).

(** The queue the constructor loads from what is stored under the key. *)
Definition loaded (now : Z) (stored : option string) : list (QueueItem.t Data) :=
  match truthy stored with
  | Some text =>
      match JSON_parse_queue text with
      | Some parsed => List.filter (retained now) parsed
      | None => []
      end
  | None => []
  end.

(** What [loadQueue] does to [localStorage]. *)
Definition load_storage (now : Z) (s : Storage) : Storage :=
  let s1 := log (GetItem OfflineQueue.storageKey) s in
  match truthy (contents s !! OfflineQueue.storageKey) with
  | Some text =>
      match JSON_parse_queue text with
      | Some parsed =>
          let kept := List.filter (retained now) parsed in
          if (length kept =? length parsed)%nat then s1 else save_storage kept s1
      | None => s1
      end
  | None => s1
  end.

Definition same_id (item other : QueueItem.t Data) : Prop :=
  QueueItem.id other = QueueItem.id item.

#[global] Instance same_id_dec item other : Decision (same_id item other).
Proof. unfold same_id. apply _. Defined.

Definition increment item : QueueItem.t Data :=
  QueueItem.mk (QueueItem.id item) (QueueItem.data item) (QueueItem.timestamp item)
    (QueueItem.retryCount item + 1).

Definition kept_refs (pred : QueueItem.t Data -> bool) (objs : list (QueueItem.t Data))
    (refs : list nat) : list nat :=
  List.filter (fun r => match objs !! r with
                        | Some item => pred item
                        | None => false
                        end) refs.

(** The elements of [l] whose submission, by index from [i] on, was not
    delivered. *)
Fixpoint undelivered {A} (delivered : nat -> bool) (i : nat) (l : list A) : list A :=
  match l with
  | [] => []
  | x :: l' =>
      if delivered i then undelivered delivered (S i) l'
      else x :: undelivered delivered (S i) l'
  end.

(** The store takes a save of [items] over the contents [m], and gives
    them back: nothing to ask of an empty queue, whose key is removed;
    otherwise [JSON.stringify] returns a text, [setItem] accepts it and
    [JSON.parse] reads it back. *)
Definition persists (items : list (QueueItem.t Data)) (m : gmap string string) : Prop :=
  match items with
  | [] => True
  | _ :: _ =>
      exists text,
        JSON_stringify_queue items = Some text
        /\ setItem_throws m OfflineQueue.storageKey text = None
        /\ JSON_parse_queue text = Some items
  end.

(** The store holds the queue: a queue constructed from it, at any
    time, is the queue in memory without the items the sweep drops. *)
Definition in_sync w (this : OfflineQueue.t) : Prop :=
  forall now,
    loaded now (contents (localStorage w) !! OfflineQueue.storageKey)
    = List.filter (retained now) (items_of w (OfflineQueue.queue this)).

(** A call that changes the queue. *)
Inductive queue_call : Type :=
  | CallAdd (ulid : string) (now : Z) (data : Data)
  | CallRemove (item : QueueItem.t Data)
  | CallIncrementRetry (item : QueueItem.t Data).

Definition run_call (this : OfflineQueue.t) (c : queue_call) : M World unit :=
  match c with
  | CallAdd ulid now data => OfflineQueue.add this ulid now data
  | CallRemove item => OfflineQueue.remove this item
  | CallIncrementRetry item => OfflineQueue.incrementRetry this item ;; ret tt
  end.

(** [incrementRetry(item)], [n] times; the results, first call first. *)
Fixpoint retry_times (this : OfflineQueue.t) item (n : nat) : M World (list bool) :=
  match n with
  | O => ret []
  | S n' =>
      let* r := OfflineQueue.incrementRetry this item in
      let* rs := retry_times this item n' in
      ret (r :: rs)
  end.

End Specification.

(** ** Corrupted text *)


(** ** Identifiers as numbers *)

(** The number a string of digits denotes: [value] gives the digit a
    character stands for. *)
Fixpoint number_of (base : Z) (value : ascii -> Z) (acc : Z) (s : string) : Z :=
  match s with
  | EmptyString => acc
  | String c s' => number_of base value (acc * base + value c) s'
  end.

(** The upper-case digits of base 36, '0'..'9' and 'A'..'Z', and their
    values. *)
Definition is_digit36 (c : ascii) : bool :=
  let n := Z.of_N (N_of_ascii c) in
  ((48 <=? n) && (n <=? 57)) || ((65 <=? n) && (n <=? 90)).

Definition value36 (c : ascii) : Z :=
  let n := Z.of_N (N_of_ascii c) in
  if n <=? 57 then n - 48 else n - 55.

Definition all_chars (P : ascii -> bool) (s : string) : Prop :=
  Forall (fun c => P c = true) (list_ascii_of_string s).

(** The digits of Crockford's base 32, and their values: the place of
    the character in [ENCODING]. *)
Definition crockford (c : ascii) : option nat :=
  String.index 0 (String c EmptyString) Utils.ENCODING.

Definition is_crockford (c : ascii) : bool :=
  match crockford c with Some _ => true | None => false end.

Definition crockford_value (c : ascii) : Z :=
  match crockford c with Some i => Z.of_nat i | None => 0 end.

(** ** Inputs for the reference host *)

Definition unbounded_host : Host := Json.host None.

(** A host whose stores hold 100 characters. *)
Definition small_host : Host := Json.host (Some 100%nat).

Section Inputs.
#[local] Existing Instance unbounded_host.

(** An entry written at time 0, and a store that holds it. *)
Definition old_entry : CacheEntry.t Json.value :=
  CacheEntry.mk (Json.String "cached") 0 None.

Definition stale_window : World :=
  mkWorld [] []
    (mkStorage {["mail818_config_X" := Json.print (Json.of_entry old_entry)]} [])
    (mkStorage ∅ []).

Definition disabled : CacheOptions.t := CacheOptions.mk false 1000 localStorageKind.

Definition enabled_cache : CacheManager.t :=
  CacheManager.mk (CacheOptions.mk true 1000 localStorageKind).

Definition config : Json.value :=
  Json.Object [("fields", Json.Array [Json.String "email"; Json.String "name"])].

Definition empty_storage : Storage := mkStorage ∅ [].

(** A queue with no item. *)
Definition empty_window : World :=
  mkWorld [] [[]] empty_storage empty_storage.

Definition accepting : OfflineOptions.t := OfflineOptions.mk true true true.
Definition draining : OfflineOptions.t := OfflineOptions.mk true false true.

(** A queue of one item, saved. *)
Definition first_item : QueueItem.t Json.value :=
  QueueItem.mk "01HF0000000000AAAAAAAAAAAA" (Json.String "a") 1700000000000 0.

Definition one_item_window : World :=
  mkWorld [first_item] [[0%nat]]
    (mkStorage {[OfflineQueue.storageKey := Json.print (Json.Array [Json.of_item first_item])]} [])
    (mkStorage ∅ []).

Definition new_id : string := "01HF0000000000BBBBBBBBBBBB".

(** An item whose age is seven days to the millisecond, when the queue
    is constructed at [1700000000000]. *)
Definition week_old_item : QueueItem.t Json.value :=
  QueueItem.mk "01HF0000000000CCCCCCCCCCCC" (Json.String "c")
    (1700000000000 - 7 * 24 * 60 * 60 * 1000) 0.

Definition week_old_window : World :=
  mkWorld [] []
    (mkStorage
       {[OfflineQueue.storageKey := Json.print (Json.Array [Json.of_item week_old_item])]} [])
    (mkStorage ∅ []).


End Inputs.

Section QuotaInputs.
#[local] Existing Instance small_host.

(** An empty queue over stores of 100 characters. *)
Definition small_window : World :=
  mkWorld [] [[]] (mkStorage ∅ []) (mkStorage ∅ []).

End QuotaInputs.

(** ** Inputs for the queue on text of any shape *)






Example json_round_trip :
  Json.parse (Json.print (Json.Array [Json.Object [("id", Json.String "A"); ("n", Json.Number (-12))]; Json.Null]))
  = Some (Json.Array [Json.Object [("id", Json.String "A"); ("n", Json.Number (-12))]; Json.Null]).
Proof. vm_compute. reflexivity. Qed.

(** * Properties *)

Section CacheTheory.
Context `{Host}.
Implicit Types (s : Storage) (this : CacheManager.t).

Lemma collect_keys_spec pfx fuel : forall i keys s,
  (size (contents s) - i < fuel)%nat ->
  exists s',
    CacheManager.collect_keys pfx fuel i keys s
    = (Normal (keys ++ List.filter (String.prefix pfx)
                         (drop i (map_to_list (contents s)).*1)), s')
    /\ contents s' = contents s /\ attempts s' = attempts s.
Proof.
  induction fuel as [|fuel IH]; intros i keys s Hfuel; [lia|].
  cbn [CacheManager.collect_keys]. unfold bind, storage_length.
  destruct (Nat.ltb_spec i (size (contents s))) as [Hlt|Hge].
  - unfold storage_key. cbn [contents log].
    destruct (lookup_lt_is_Some_2 (map_to_list (contents s)).*1 i) as [k Hk].
    { rewrite length_fmap, length_map_to_list. exact Hlt. }
    rewrite Hk.
    destruct (IH (S i) (if String.prefix pfx k then keys ++ [k] else keys)
                (log (Key i) (log Length s))) as (s' & Heq & Hc & Ha).
    { cbn. lia. }
    exists s'. split; [|auto].
    rewrite Heq. cbn [contents log]. rewrite (drop_S _ _ _ Hk). cbn [List.filter].
    destruct (String.prefix pfx k); [|reflexivity].
    by rewrite <- app_assoc.
  - exists (log Length s). split; [|auto].
    rewrite drop_ge, app_nil_r; [reflexivity|].
    rewrite length_fmap, length_map_to_list. exact Hge.
Qed.

Lemma prefixed_keys_spec pfx s :
  exists s',
    CacheManager.prefixed_keys pfx s
    = (Normal (List.filter (String.prefix pfx) (map_to_list (contents s)).*1), s')
    /\ contents s' = contents s /\ attempts s' = attempts s.
Proof.
  unfold CacheManager.prefixed_keys.
  destruct (collect_keys_spec pfx (S (size (contents s))) 0 [] s) as (s' & Heq & Hc);
    [lia|].
  exists s'. split; [|exact Hc]. exact Heq.
Qed.

Lemma clean_entry_spec this now key s :
  exists s',
    CacheManager.clean_entry this now key s = (Normal tt, s')
    /\ contents s'
       = (if stale this now (contents s !! key) then delete key (contents s)
          else contents s)
    /\ attempts s' = attempts s.
Proof.
  unfold CacheManager.clean_entry, try_catch, bind, getItem, stale.
  destruct (truthy (contents s !! key)) as [item|]; [|eauto].
  destruct (JSON_parse_entry item) as [entry|]; cbn; [|eauto].
  destruct (_ >? _); cbn; eauto.
Qed.

Lemma forEach_clean_entry this now keys : forall s,
  exists s',
    forEach keys (CacheManager.clean_entry this now) s = (Normal tt, s')
    /\ contents s' = sweep_keys this now keys (contents s)
    /\ attempts s' = attempts s.
Proof.
  induction keys as [|key keys IH]; intros s; cbn [forEach]; [by eexists|].
  unfold bind.
  destruct (clean_entry_spec this now key s) as (s1 & -> & Hc1 & Ha1).
  destruct (IH s1) as (s' & -> & Hc & Ha).
  exists s'. split; [reflexivity|]. split; [|congruence].
  rewrite Hc, Hc1. reflexivity.
Qed.

Lemma sweep_keys_lookup this now keys : forall m k,
  NoDup keys ->
  sweep_keys this now keys m !! k
  = if decide (k ∈ keys) then (if stale this now (m !! k) then None else m !! k)
    else m !! k.
Proof.
  induction keys as [|key keys IH]; intros m k Hnd; cbn [sweep_keys foldl].
  - rewrite decide_False; [done|]. apply not_elem_of_nil.
  - apply NoDup_cons in Hnd as [Hnotin Hnd].
    fold (sweep_keys this now keys
            (if stale this now (m !! key) then delete key m else m)).
    rewrite IH by done.
    destruct (decide (k = key)) as [->|Hne].
    + rewrite (decide_False (P := key ∈ keys)) by done.
      rewrite (decide_True (P := key ∈ key :: keys)) by (apply elem_of_cons; auto).
      destruct (stale this now (m !! key)); [by rewrite lookup_delete_eq|done].
    + assert (Hk : (if stale this now (m !! key) then delete key m else m) !! k = m !! k).
      { destruct (stale _ _ _); [by rewrite lookup_delete_ne|done]. }
      rewrite Hk.
      destruct (decide (k ∈ keys)) as [Hin|Hnin].
      * rewrite decide_True by (apply elem_of_cons; auto). done.
      * rewrite decide_False; [done|]. rewrite elem_of_cons. tauto.
Qed.

Lemma cleanExpired_spec this now s :
  exists s',
    CacheManager.cleanExpired this now s = (Normal tt, s')
    /\ contents s' = swept this now (contents s)
    /\ attempts s' = attempts s.
Proof.
  unfold CacheManager.cleanExpired, bind.
  destruct (prefixed_keys_spec (CacheManager.prefix) s) as (s1 & -> & Hc1 & Ha1).
  destruct (forEach_clean_entry this now
              (List.filter (String.prefix (CacheManager.prefix))
                 (map_to_list (contents s)).*1) s1) as (s' & -> & Hc & Ha).
  exists s'. split; [reflexivity|]. split; [|congruence].
  rewrite Hc, Hc1. apply map_eq. intros k.
  rewrite sweep_keys_lookup.
  2:{ apply NoDup_ListNoDup, List.NoDup_filter, NoDup_ListNoDup, NoDup_fst_map_to_list. }
  unfold swept. rewrite map_lookup_filter.
  destruct (contents s !! k) as [v|] eqn:Hk; cbn.
  - case_decide as Hin.
    + apply list_elem_of_In, List.filter_In in Hin as [_ Hp].
      destruct (stale this now (Some v)) eqn:Hs.
      * rewrite option_guard_False; [done|]. cbn. tauto.
      * rewrite option_guard_True; [done|]. cbn. intros [_ ?]. congruence.
    + rewrite option_guard_True; [done|]. cbn. intros [Hp _]. apply Hin.
      apply list_elem_of_In, List.filter_In. split; [|done].
      apply list_elem_of_In, list_elem_of_fmap. exists (k, v). split; [done|].
      by apply elem_of_map_to_list.
  - by case_decide.
Qed.
Lemma swept_lookup this now (m : gmap string string) k :
  swept this now m !! k
  = if String.prefix (CacheManager.prefix) k && stale this now (m !! k)
    then None else m !! k.
Proof.
  unfold swept. rewrite map_lookup_filter.
  destruct (m !! k) as [v|]; cbn.
  - destruct (String.prefix _ k), (stale this now (Some v)); cbn.
    + rewrite option_guard_False; [done|]. tauto.
    + rewrite option_guard_True; [done|]. intros [_ ?]; done.
    + rewrite option_guard_True; [done|]. intros [? _]; done.
    + rewrite option_guard_True; [done|]. intros [? _]; done.
  - by destruct (_ && _).
Qed.

(** [get] on an enabled manager, by the entry the store holds. *)
Lemma get_spec this now key s :
  CacheOptions.enabled (CacheManager.options this) = true ->
  exists r s',
    CacheManager.get this now key s = (Normal r, s')
    /\ attempts s' = attempts s
    /\ match truthy (contents s !! (CacheManager.prefix +:+ key)) with
       | None => r = None /\ contents s' = contents s
       | Some item =>
           match JSON_parse_entry item with
           | None => r = None /\ contents s' = contents s
           | Some entry =>
               if now - CacheEntry.timestamp entry
                  >? CacheOptions.ttl (CacheManager.options this)
               then r = None
                    /\ contents s' = delete (CacheManager.prefix +:+ key) (contents s)
               else r = Some (CacheEntry.data entry) /\ contents s' = contents s
           end
       end.
Proof.
  intros Hen. unfold CacheManager.get. rewrite Hen. cbn [negb].
  unfold try_catch, bind, getItem.
  destruct (truthy _) as [item|]; [|by eexists _, _].
  destruct (JSON_parse_entry item) as [entry|]; cbn; [|by eexists _, _].
  destruct (_ >? _); cbn; by eexists _, _.
Qed.

Lemma write_entry_spec this now key value etag s :
  match JSON_stringify_entry (CacheEntry.mk value now etag) with
  | None => CacheManager.write_entry this now key value etag s = (Throw TypeError, s)
  | Some text =>
      exists s',
        attempts s' = (CacheManager.prefix +:+ key, text) :: attempts s
        /\ match setItem_throws (contents s) (CacheManager.prefix +:+ key) text with
           | Some e =>
               CacheManager.write_entry this now key value etag s = (Throw e, s')
               /\ contents s' = contents s
           | None =>
               CacheManager.write_entry this now key value etag s = (Normal tt, s')
               /\ contents s' = <[CacheManager.prefix +:+ key := text]> (contents s)
           end
  end.
Proof.
  unfold CacheManager.write_entry, bind, setItem.
  destruct (JSON_stringify_entry _) as [text|]; cbn; [|done].
  destruct (setItem_throws _ _ _); cbn;
    (eexists; split; [|split; reflexivity]; reflexivity).
Qed.

(** *** [set] *)

(** C9. [set] returns normally whatever the store does.  On an enabled
    manager: when [JSON.stringify] throws nothing is written and [setItem]
    is not called; when the first [setItem] succeeds the entry is
    written; when it throws [QuotaExceededError] the store is swept of
    its stale entries under the prefix and [setItem] is called once
    more, and when that second call throws too the store is left as the
    sweep left it; when the first [setItem] throws anything else the
    store is left as it was, after that one call. *)
Theorem set_never_throws this now now_sweep now_retry key value etag s :
  let k := CacheManager.prefix +:+ key in
  exists s',
    CacheManager.set this now now_sweep now_retry key value etag s = (Normal tt, s')
    /\ if CacheOptions.enabled (CacheManager.options this) then
         match JSON_stringify_entry (CacheEntry.mk value now etag) with
         | None => contents s' = contents s /\ attempts s' = attempts s
         | Some text =>
             match setItem_throws (contents s) k text with
             | None =>
                 contents s' = <[k := text]> (contents s)
                 /\ attempts s' = (k, text) :: attempts s
             | Some QuotaExceededError =>
                 let m := swept this now_sweep (contents s) in
                 match JSON_stringify_entry (CacheEntry.mk value now_retry etag) with
                 | None => contents s' = m /\ attempts s' = (k, text) :: attempts s
                 | Some text' =>
                     attempts s' = (k, text') :: (k, text) :: attempts s
                     /\ contents s' = match setItem_throws m k text' with
                                      | None => <[k := text']> m
                                      | Some _ => m
                                      end
                 end
             | Some _ => contents s' = contents s /\ attempts s' = (k, text) :: attempts s
             end
         end
       else s' = s.
Proof.
  intros k. unfold CacheManager.set.
  destruct (CacheOptions.enabled _); cbn [negb]; [|by eexists].
  unfold try_catch at 1.
  pose proof (write_entry_spec this now key value etag s) as Hw.
  fold k in Hw.
  destruct (JSON_stringify_entry (CacheEntry.mk value now etag)) as [text|].
  2:{ rewrite Hw. by eexists. }
  destruct Hw as (s1 & Ha1 & Hw).
  destruct (setItem_throws (contents s) k text) as [e|].
  2:{ destruct Hw as [-> Hc]. by eexists. }
  destruct Hw as [-> Hc1].
  destruct e; try (eexists; split; [reflexivity|]; by rewrite Hc1, Ha1).
  unfold bind.
  destruct (cleanExpired_spec this now_sweep s1) as (s2 & -> & Hc2 & Ha2).
  rewrite Hc1 in Hc2. unfold try_catch.
  pose proof (write_entry_spec this now_retry key value etag s2) as Hw.
  fold k in Hw. cbn zeta.
  destruct (JSON_stringify_entry (CacheEntry.mk value now_retry etag)) as [text'|].
  2:{ rewrite Hw. eexists; split; [reflexivity|]. by rewrite Hc2, Ha2, Ha1. }
  destruct Hw as (s3 & Ha3 & Hw). rewrite Hc2 in Hw.
  destruct (setItem_throws _ k text') as [e|]; destruct Hw as [-> Hc3];
    (eexists; split; [reflexivity|]); by rewrite Hc3, Ha3, Ha2, Ha1, ?Hc2.
Qed.

(** [set] when the first write goes through. *)
Lemma set_writes this now now_sweep now_retry key value etag text s :
  CacheOptions.enabled (CacheManager.options this) = true ->
  JSON_stringify_entry (CacheEntry.mk value now etag) = Some text ->
  setItem_throws (contents s) (CacheManager.prefix +:+ key) text = None ->
  exists s',
    CacheManager.set this now now_sweep now_retry key value etag s = (Normal tt, s')
    /\ contents s' = <[CacheManager.prefix +:+ key := text]> (contents s).
Proof.
  intros Hen Hstr Hok. unfold CacheManager.set. rewrite Hen. cbn [negb].
  unfold try_catch.
  pose proof (write_entry_spec this now key value etag s) as Hw.
  rewrite Hstr in Hw. destruct Hw as (s' & _ & Hw). rewrite Hok in Hw.
  destruct Hw as [-> Hc]. by exists s'.
Qed.

(** *** [get] *)

(** C2. On an enabled manager, once [set(key, value)] has written its
    entry at time [now_set], and as long as the store holds that entry
    under the key, [get(key)] at time [now] returns [value] and leaves the
    store as it is when [now - now_set <= ttl], and returns [null] and
    deletes the entry when [now - now_set > ttl].  An entry that does not
    parse is a miss, and is left in the store. *)
Theorem get_after_set this now_set now_sweep now_retry key value etag text s s1 now :
  let k := CacheManager.prefix +:+ key in
  CacheOptions.enabled (CacheManager.options this) = true ->
  JSON_stringify_entry (CacheEntry.mk value now_set etag) = Some text ->
  setItem_throws (contents s) k text = None ->
  JSON_parse_entry text = Some (CacheEntry.mk value now_set etag) ->
  contents s1 !! k
  = contents (CacheManager.set this now_set now_sweep now_retry key value etag s).2 !! k ->
  (exists r s2,
      CacheManager.get this now key s1 = (Normal r, s2)
      /\ (now - now_set <= CacheOptions.ttl (CacheManager.options this) ->
          r = Some value /\ contents s2 = contents s1)
      /\ (now - now_set > CacheOptions.ttl (CacheManager.options this) ->
          r = None /\ contents s2 = delete k (contents s1)))
  /\ (forall s0 item,
        contents s0 !! k = Some item ->
        JSON_parse_entry item = None ->
        exists s2,
          CacheManager.get this now key s0 = (Normal None, s2)
          /\ contents s2 = contents s0).
Proof.
  intros k Hen Hstr Hok Hparse Hs1. split.
  - destruct (set_writes this now_set now_sweep now_retry key value etag text s
                Hen Hstr Hok) as (s' & Hset & Hc).
    fold k in Hc.
    rewrite Hset in Hs1. cbn [snd] in Hs1. rewrite Hc, lookup_insert_eq in Hs1.
    destruct (get_spec this now key s1 Hen) as (r & s2 & Hget & _ & Hcase).
    fold k in Hcase. rewrite Hs1 in Hcase.
    assert (Ht : truthy (Some text) = Some text).
    { destruct text; [|reflexivity].
      by destruct (JSON_stringify_entry_truthy _ _ Hstr). }
    rewrite Ht, Hparse in Hcase. cbn [CacheEntry.timestamp CacheEntry.data] in Hcase.
    exists r, s2. split; [exact Hget|].
    destruct (Z.gtb_spec (now - now_set) (CacheOptions.ttl (CacheManager.options this)));
      split; intros; first [lia | exact Hcase].
  - intros s0 item Hitem Hbad.
    destruct (get_spec this now key s0 Hen) as (r & s2 & Hget & _ & Hcase).
    fold k in Hcase. rewrite Hitem in Hcase.
    destruct item as [|c item]; cbn [truthy] in Hcase.
    + destruct Hcase as [-> Hc]. by exists s2.
    + rewrite Hbad in Hcase. destruct Hcase as [-> Hc]. by exists s2.
Qed.

(** *** A disabled manager *)

(** [run_calls] on a disabled manager: nothing is read, written or
    deleted, and every [get] is a miss. *)
Lemma run_calls_disabled this cs : forall s,
  CacheOptions.enabled (CacheManager.options this) = false ->
  run_calls this cs s = (Normal (replicate (length (gets cs)) None), s).
Proof.
  intros s Hdis. induction cs as [|c cs IH]; [reflexivity|].
  destruct c; cbn [run_calls gets List.filter]; unfold bind.
  - unfold CacheManager.get at 1. rewrite Hdis. cbn. fold (gets cs). by rewrite IH.
  - unfold CacheManager.set at 1. rewrite Hdis. cbn. fold (gets cs). by rewrite IH.
Qed.

Lemma new_spec opts now (w : World) :
  let this := CacheManager.mk opts in
  let kind := CacheOptions.storage opts in
  exists w',
    CacheManager.new opts now w = (Normal this, w')
    /\ contents (storage_of kind w') = swept this now (contents (storage_of kind w))
    /\ objects w' = objects w /\ arrays w' = arrays w
    /\ forall other, other <> kind -> storage_of other w' = storage_of other w.
Proof.
  intros this kind. unfold CacheManager.new, bind, on_storage. fold this.
  change (CacheManager.storage this) with kind.
  destruct kind eqn:Hk.
  - destruct (cleanExpired_spec this now (localStorage w)) as (s' & -> & Hc & _).
    eexists. split; [reflexivity|]. cbn. repeat split; try done.
    by intros [].
  - destruct (cleanExpired_spec this now (sessionStorage w)) as (s' & -> & Hc & _).
    eexists. split; [reflexivity|]. cbn. repeat split; try done.
    by intros [].
Qed.

(** C5, as the code has it.  On a manager with [enabled = false] every
    sequence of [get] and [set] calls leaves the store as it is, log of
    calls included, and every [get] in it is a miss.  The constructor
    does not look at [enabled]: it sweeps the store the options name,
    and leaves the other store and the heap alone. *)
Theorem disabled_cache_calls_are_noops opts now (w : World) :
  CacheOptions.enabled opts = false ->
  exists this w',
    CacheManager.new opts now w = (Normal this, w')
    /\ CacheManager.options this = opts
    /\ contents (storage_of (CacheOptions.storage opts) w')
       = swept this now (contents (storage_of (CacheOptions.storage opts) w))
    /\ forall cs s, run_calls this cs s = (Normal (replicate (length (gets cs)) None), s).
Proof.
  intros Hdis. destruct (new_spec opts now w) as (w' & Hnew & Hc & _).
  eexists _, w'. split; [exact Hnew|]. split; [reflexivity|]. split; [exact Hc|].
  intros cs s. by apply run_calls_disabled.
Qed.
End CacheTheory.

(** ** The reference host at work *)

Section CacheReference.
#[local] Existing Instance unbounded_host.

(** C5, as the specification has it, fails: constructing a manager with
    [enabled = false] reads the store and deletes the expired entry. *)
Lemma disabled_cache_construction_touches_storage :
  let w' := (CacheManager.new disabled 5000 stale_window).2 in
  contents (localStorage stale_window) !! "mail818_config_X"
  = Some (Json.print (Json.of_entry old_entry))
  /\ contents (localStorage w') !! "mail818_config_X" = None
  /\ calls (localStorage w')
     = [RemoveItem "mail818_config_X"; GetItem "mail818_config_X";
        Length; Key 0; Length].
Proof. vm_compute. repeat split. Qed.

Lemma disabled_cache_calls_are_noops_witness :
  exists this w',
    CacheManager.new disabled 5000 stale_window = (Normal this, w')
    /\ CacheManager.options this = disabled
    /\ contents (storage_of localStorageKind w')
       = swept this 5000 (contents (storage_of localStorageKind stale_window))
    /\ forall cs s, run_calls this cs s = (Normal (replicate (length (gets cs)) None), s).
Proof.
  apply (disabled_cache_calls_are_noops disabled 5000 stale_window).
  reflexivity.
Defined.

(** The entry cached at 5000 with a time to live of 1000 is a miss at
    6001, and its key is gone from the store. *)
Lemma get_after_set_witness :
  let s1 := (CacheManager.set enabled_cache 5000 5000 5000 "config_X" config None
               empty_storage).2 in
  exists s2,
    CacheManager.get enabled_cache 6001 "config_X" s1 = (Normal None, s2)
    /\ contents s1 !! "mail818_config_X"
       = Some (Json.print (Json.of_entry (CacheEntry.mk config 5000 None)))
    /\ contents s2 !! "mail818_config_X" = None.
Proof.
  intros s1.
  destruct (get_after_set (H := unbounded_host) enabled_cache 5000 5000 5000
              "config_X" config None
              (Json.print (Json.of_entry (CacheEntry.mk config 5000 None)))
              empty_storage s1 6001)
    as [(r & s2 & Hget & _ & Hexpired) _].
  - reflexivity.
  - reflexivity.
  - reflexivity.
  - by vm_compute.
  - reflexivity.
  - destruct Hexpired as [-> Hcontents]; [cbn; lia|].
    exists s2. split; [exact Hget|]. split; [by vm_compute|].
    rewrite Hcontents. apply lookup_delete_eq.
Defined.
End CacheReference.

Section QuotaReference.
#[local] Existing Instance small_host.

(** The quota at work: the store is full of an expired entry, the first
    [setItem] throws [QuotaExceededError], the sweep removes the expired
    entry and the second [setItem] writes the new one. *)
Example set_sweeps_and_retries :
  let old := Json.print (Json.of_entry (CacheEntry.mk (Json.String "a long cached value") 0 None)) in
  let new := Json.print (Json.of_entry (CacheEntry.mk config 5000 None)) in
  let s := mkStorage {["mail818_old" := old]} [] in
  let s' := (CacheManager.set enabled_cache 5000 5000 5000 "config_X" config None s).2 in
  setItem_throws (contents s) "mail818_config_X" new = Some QuotaExceededError
  /\ contents s' !! "mail818_old" = None
  /\ contents s' !! "mail818_config_X" = Some new
  /\ attempts s' = [("mail818_config_X", new); ("mail818_config_X", new)].
Proof. vm_compute. repeat split. Qed.
End QuotaReference.

(** ** The queue *)

Section QueueTheory.
Context `{Host}.
Implicit Types (w : World) (this : OfflineQueue.t) (item : QueueItem.t Data).

(** *** References and items *)

Lemma deref_lookup objs refs :
  Forall (fun r => (r < length objs)%nat) refs ->
  forall j, deref objs refs !! j = refs !! j ≫= (fun r => objs !! r).
Proof.
  unfold deref. induction 1 as [|r refs Hr _ IH]; intros j; [done|].
  destruct (lookup_lt_is_Some_2 objs r Hr) as [x Hx].
  cbn [omap list_omap]. fold (omap (fun r => objs !! r) refs). rewrite Hx.
  destruct j; cbn; [by rewrite Hx|apply IH].
Qed.

Lemma deref_length objs refs :
  Forall (fun r => (r < length objs)%nat) refs ->
  length (deref objs refs) = length refs.
Proof.
  unfold deref. induction 1 as [|r refs Hr _ IH]; [done|].
  destruct (lookup_lt_is_Some_2 objs r Hr) as [x Hx].
  cbn. rewrite Hx. cbn. by f_equal.
Qed.

Lemma deref_alloc objs more refs :
  Forall (fun r => (r < length objs)%nat) refs ->
  deref (objs ++ more) refs = deref objs refs.
Proof.
  unfold deref. induction 1 as [|r refs Hr _ IH]; [done|].
  cbn. rewrite lookup_app_l by done. by rewrite IH.
Qed.

Lemma deref_app objs refs1 refs2 :
  deref objs (refs1 ++ refs2) = deref objs refs1 ++ deref objs refs2.
Proof. apply omap_app. Qed.

Lemma deref_delete objs refs i :
  Forall (fun r => (r < length objs)%nat) refs ->
  deref objs (delete i refs) = delete i (deref objs refs).
Proof.
  unfold deref. intros Hv. revert i.
  induction Hv as [|r refs Hr _ IH]; intros i; [done|].
  destruct (lookup_lt_is_Some_2 objs r Hr) as [x Hx].
  destruct i; cbn; rewrite Hx; cbn; [done|].
  f_equal. apply IH.
Qed.

Lemma deref_write objs refs i r x :
  Forall (fun r => (r < length objs)%nat) refs ->
  NoDup refs ->
  refs !! i = Some r ->
  deref (<[r := x]> objs) refs = <[i := x]> (deref objs refs).
Proof.
  intros Hv Hnd Hi.
  assert (Hv' : Forall (fun r' => (r' < length (<[r := x]> objs))%nat) refs).
  { eapply Forall_impl; [exact Hv|]. intros r' Hr'. by rewrite length_insert. }
  apply list_eq. intros j.
  rewrite (deref_lookup _ _ Hv').
  destruct (decide (j = i)) as [->|Hne].
  - rewrite list_lookup_insert_eq.
    2:{ rewrite deref_length by done. by eapply lookup_lt_Some. }
    rewrite Hi. cbn. apply list_lookup_insert_eq.
    apply (proj1 (Forall_lookup _ _) Hv _ _ Hi).
  - rewrite list_lookup_insert_ne by done.
    rewrite (deref_lookup _ _ Hv).
    destruct (refs !! j) as [r'|] eqn:Hj; [|done]. cbn.
    apply list_lookup_insert_ne. intros ->.
    apply Hne. symmetry. by eapply NoDup_lookup.
Qed.

Lemma list_find_deref objs item refs :
  Forall (fun r => (r < length objs)%nat) refs ->
  list_find (same_id item) (deref objs refs)
  = list_find (OfflineQueue.id_matches objs item) refs
      ≫= (fun ir => (fun x => (ir.1, x)) <$> objs !! ir.2).
Proof.
  unfold deref. induction 1 as [|r refs Hr _ IH]; [done|].
  destruct (lookup_lt_is_Some_2 objs r Hr) as [x Hx].
  cbn [omap list_omap]. fold (omap (fun r => objs !! r) refs). rewrite Hx.
  cbn [list_find]. fold (list_find (same_id item)) (list_find (OfflineQueue.id_matches objs item)).
  destruct (decide (same_id item x)) as [Hs|Hs].
  - rewrite decide_True; [by cbn; rewrite Hx|].
    unfold OfflineQueue.id_matches. rewrite Hx. cbn. by f_equal.
  - rewrite decide_False.
    2:{ unfold OfflineQueue.id_matches. rewrite Hx. cbn. intros [= ?]. by apply Hs. }
    rewrite IH. destruct (list_find _ refs) as [[i r']|]; [|done].
    cbn. by destruct (objs !! r').
Qed.

Lemma list_find_no_match objs item refs :
  Forall (fun other => ~ same_id item other) (deref objs refs) ->
  list_find (OfflineQueue.id_matches objs item) refs = None.
Proof.
  intros Hnone. apply list_find_None. apply Forall_forall. intros r Hr Hm.
  unfold OfflineQueue.id_matches in Hm.
  destruct (objs !! r) as [x|] eqn:Hx; [|done].
  injection Hm as Hm.
  apply (proj1 (Forall_forall _ _) Hnone x); [|exact Hm].
  apply list_elem_of_omap. eauto.
Qed.

(** *** The methods, on a well-formed heap *)

Lemma refs_of_insert w a refs :
  (a < length (arrays w))%nat ->
  default [] (<[a := refs]> (arrays w) !! a) = refs.
Proof. intros Ha. by rewrite list_lookup_insert_eq. Qed.

Lemma saveQueue_spec this w :
  Forall (fun r => (r < length (objects w))%nat) (refs_of w (OfflineQueue.queue this)) ->
  OfflineQueue.saveQueue this w
  = (Normal tt,
     set_local w (save_storage (items_of w (OfflineQueue.queue this)) (localStorage w))).
Proof.
  intros Hv.
  unfold OfflineQueue.saveQueue, try_catch, bind, array_length, read_array, ret,
    read_items, on_storage, stringify_or_throw, save_storage, set_local, items_of.
  rewrite (deref_length _ _ Hv). cbn. fold (refs_of w (OfflineQueue.queue this)).
  destruct (length (refs_of w _) =? 0)%nat; [reflexivity|].
  destruct (JSON_stringify_queue _) as [text|]; cbn; [|by destruct w].
  unfold setItem. by destruct (setItem_throws _ _ _).
Qed.

Lemma add_spec this ulid now data w :
  wf w this ->
  OfflineOptions.queueSubmissions (OfflineQueue.options this) = true ->
  let q := OfflineQueue.queue this in
  let item := QueueItem.mk ulid data now 0 in
  exists w',
    OfflineQueue.add this ulid now data w = (Normal tt, w')
    /\ wf w' this
    /\ items_of w' q = items_of w q ++ [item]
    /\ localStorage w' = save_storage (items_of w q ++ [item]) (localStorage w)
    /\ sessionStorage w' = sessionStorage w
    /\ objects w' = objects w ++ [item]
    /\ arrays w' = <[q := refs_of w q ++ [length (objects w)]]> (arrays w).
Proof.
  intros (Hq & Hnd & Hv) Hqs q item.
  unfold OfflineQueue.add. rewrite Hqs. cbn [negb].
  unfold bind at 1. unfold alloc_object. unfold bind at 1. unfold read_array at 1.
  cbn [arrays objects]. fold (refs_of w q). unfold bind at 1. unfold write_array.
  cbn [arrays objects localStorage sessionStorage].
  set (w1 := mkWorld _ _ _ _).
  assert (Hrefs : refs_of w1 q = refs_of w q ++ [length (objects w)]).
  { unfold refs_of, w1. cbn. by apply refs_of_insert. }
  assert (Hv1 : Forall (fun r => (r < length (objects w1))%nat) (refs_of w1 q)).
  { rewrite Hrefs. unfold w1. cbn. rewrite length_app. cbn.
    apply Forall_app. split; [|by constructor; [lia|]].
    eapply Forall_impl; [exact Hv|]. cbn. lia. }
  assert (Hitems : items_of w1 q = items_of w q ++ [item]).
  { unfold items_of. rewrite Hrefs, deref_app. unfold w1. cbn [objects].
    rewrite deref_alloc by done. f_equal. unfold deref. cbn.
    rewrite lookup_app_r by done. by rewrite Nat.sub_diag. }
  assert (Hwf1 : wf w1 this).
  { split; [by unfold w1; cbn; rewrite length_insert|]. split; [|exact Hv1].
    fold q. rewrite Hrefs. apply NoDup_app. split; [done|].
    split; [|apply NoDup_singleton].
    intros r Hr ->%list_elem_of_singleton.
    apply (proj1 (Forall_forall _ _) Hv) in Hr. lia. }
  rewrite (saveQueue_spec this w1 Hv1). fold q. rewrite Hitems.
  eexists. split; [reflexivity|]. split; [exact Hwf1|].
  split; [exact Hitems|]. by repeat split.
Qed.

Lemma getAll_spec this w :
  OfflineQueue.getAll this w
  = (Normal (length (arrays w)),
     mkWorld (objects w) (arrays w ++ [refs_of w (OfflineQueue.queue this)])
       (localStorage w) (sessionStorage w)).
Proof. reflexivity. Qed.

Lemma size_spec this w :
  OfflineQueue.size this w = (Normal (length (refs_of w (OfflineQueue.queue this))), w).
Proof. reflexivity. Qed.

Lemma remove_spec this item w :
  wf w this ->
  let q := OfflineQueue.queue this in
  match list_find (same_id item) (items_of w q) with
  | None => OfflineQueue.remove this item w = (Normal tt, w)
  | Some (index, _) =>
      exists w',
        OfflineQueue.remove this item w = (Normal tt, w')
        /\ wf w' this
        /\ items_of w' q = delete index (items_of w q)
        /\ localStorage w' = save_storage (delete index (items_of w q)) (localStorage w)
        /\ sessionStorage w' = sessionStorage w
        /\ objects w' = objects w
        /\ arrays w' = <[q := delete index (refs_of w q)]> (arrays w)
  end.
Proof.
  intros (Hq & Hnd & Hv) q. subst q.
  unfold items_of. rewrite (list_find_deref _ _ _ Hv).
  unfold OfflineQueue.remove, bind, read_array, write_array. cbn beta iota.
  fold (refs_of w (OfflineQueue.queue this)).
  destruct (list_find (OfflineQueue.id_matches (objects w) item) _)
    as [[index r]|] eqn:Hfind; [|reflexivity].
  destruct (proj1 (list_find_Some _ _ _ _) Hfind) as (Hr & Hm & _).
  unfold OfflineQueue.id_matches in Hm.
  cbn [mbind option_bind fst snd].
  destruct (objects w !! r) as [x|]; [|done]. cbn [fmap option_fmap option_map].
  cbn [arrays objects localStorage sessionStorage].
  set (w1 := mkWorld _ _ _ _).
  assert (Hrefs : refs_of w1 (OfflineQueue.queue this)
                  = delete index (refs_of w (OfflineQueue.queue this))).
  { unfold refs_of at 1, w1. cbn. by apply refs_of_insert. }
  assert (Hv1 : Forall (fun r => (r < length (objects w1))%nat)
                  (refs_of w1 (OfflineQueue.queue this))).
  { rewrite Hrefs. unfold w1. cbn. by apply Forall_delete. }
  assert (Hitems : items_of w1 (OfflineQueue.queue this)
                   = delete index (deref (objects w) (refs_of w (OfflineQueue.queue this)))).
  { unfold items_of. rewrite Hrefs. unfold w1. cbn [objects]. by apply deref_delete. }
  assert (Hwf1 : wf w1 this).
  { split; [by unfold w1; cbn; rewrite length_insert|]. split; [|exact Hv1].
    rewrite Hrefs. eapply sublist_NoDup; [exact Hnd|apply sublist_delete]. }
  rewrite (saveQueue_spec this w1 Hv1), Hitems.
  eexists. split; [reflexivity|]. split; [exact Hwf1|].
  split; [exact Hitems|]. by repeat split.
Qed.

Lemma incrementRetry_spec this item w :
  wf w this ->
  let q := OfflineQueue.queue this in
  match list_find (same_id item) (items_of w q) with
  | None => OfflineQueue.incrementRetry this item w = (Normal false, w)
  | Some (index, queueItem) =>
      exists w',
        OfflineQueue.incrementRetry this item w
        = (Normal (QueueItem.retryCount queueItem + 1 <? OfflineQueue.maxRetries), w')
        /\ wf w' this
        /\ items_of w' q = <[index := increment queueItem]> (items_of w q)
        /\ localStorage w'
           = save_storage (<[index := increment queueItem]> (items_of w q))
               (localStorage w)
        /\ sessionStorage w' = sessionStorage w
        /\ arrays w' = arrays w
  end.
Proof.
  intros (Hq & Hnd & Hv) q. subst q.
  unfold items_of. rewrite (list_find_deref _ _ _ Hv).
  unfold OfflineQueue.incrementRetry, bind, read_array, write_object. cbn beta iota.
  fold (refs_of w (OfflineQueue.queue this)).
  destruct (list_find (OfflineQueue.id_matches (objects w) item) _)
    as [[index r]|] eqn:Hfind; [|reflexivity].
  destruct (proj1 (list_find_Some _ _ _ _) Hfind) as (Hr & Hm & _).
  cbn [mbind option_bind fst snd].
  destruct (objects w !! r) as [x|] eqn:Hx; [|done]. cbn [fmap option_fmap option_map].
  fold (increment x).
  set (w1 := mkWorld _ _ _ _).
  assert (Hrefs : refs_of w1 (OfflineQueue.queue this)
                  = refs_of w (OfflineQueue.queue this)) by reflexivity.
  assert (Hv1 : Forall (fun r => (r < length (objects w1))%nat)
                  (refs_of w1 (OfflineQueue.queue this))).
  { rewrite Hrefs. unfold w1. cbn.
    eapply Forall_impl; [exact Hv|]. intros r' Hr'. by rewrite length_insert. }
  assert (Hitems : items_of w1 (OfflineQueue.queue this)
                   = <[index := increment x]>
                       (deref (objects w) (refs_of w (OfflineQueue.queue this)))).
  { unfold items_of. rewrite Hrefs. unfold w1. cbn [objects]. by apply deref_write. }
  assert (Hwf1 : wf w1 this).
  { split; [exact Hq|]. split; [exact Hnd|exact Hv1]. }
  rewrite (saveQueue_spec this w1 Hv1), Hitems.
  unfold read_object, set_local, ret. cbn [objects w1].
  rewrite list_lookup_insert_eq by (by eapply lookup_lt_Some).
  eexists. split; [reflexivity|]. split; [exact Hwf1|].
  split; [exact Hitems|]. by repeat split.
Qed.

(** *** Loading *)

Lemma alloc_objects_spec (items : list (QueueItem.t Data)) : forall w,
  OfflineQueue.alloc_objects items w
  = (Normal (seq (length (objects w)) (length items)),
     mkWorld (objects w ++ items) (arrays w) (localStorage w) (sessionStorage w)).
Proof.
  induction items as [|item items IH]; intros w; cbn [OfflineQueue.alloc_objects].
  - unfold ret. rewrite app_nil_r. by destruct w.
  - unfold bind, alloc_object. rewrite IH. cbn.
    rewrite length_app, Nat.add_1_r, <- app_assoc. reflexivity.
Qed.

Lemma deref_kept_refs pred (items : list (QueueItem.t Data)) : forall objs,
  deref (objs ++ items) (kept_refs pred (objs ++ items) (seq (length objs) (length items)))
  = List.filter pred items.
Proof.
  induction items as [|item items IH]; intros objs; [reflexivity|].
  cbn [length seq kept_refs List.filter].
  rewrite list_lookup_middle by done.
  specialize (IH (objs ++ [item])).
  rewrite <- app_assoc, length_app, Nat.add_1_r in IH. cbn [app] in IH.
  fold (kept_refs pred (objs ++ item :: items) (seq (S (length objs)) (length items))).
  destruct (pred item); [|exact IH].
  unfold deref. cbn [omap list_omap]. rewrite list_lookup_middle by done.
  f_equal. exact IH.
Qed.

Lemma kept_refs_valid pred (objs items : list (QueueItem.t Data)) :
  NoDup (kept_refs pred (objs ++ items) (seq (length objs) (length items)))
  /\ Forall (fun r => (r < length (objs ++ items))%nat)
       (kept_refs pred (objs ++ items) (seq (length objs) (length items))).
Proof.
  split.
  - apply NoDup_ListNoDup, List.NoDup_filter, NoDup_ListNoDup, NoDup_seq.
  - apply Forall_forall. intros r Hr.
    apply list_elem_of_In, List.filter_In in Hr as [Hr _].
    apply List.in_seq in Hr. rewrite length_app. lia.
Qed.

Lemma wf_intro w this refs :
  arrays w !! OfflineQueue.queue this = Some refs ->
  NoDup refs ->
  Forall (fun r => (r < length (objects w))%nat) refs ->
  wf w this /\ refs_of w (OfflineQueue.queue this) = refs.
Proof.
  intros Hq Hnd Hv.
  assert (Hrefs : refs_of w (OfflineQueue.queue this) = refs).
  { unfold refs_of. by rewrite Hq. }
  split; [|exact Hrefs]. unfold wf. rewrite Hrefs.
  split; [by eapply lookup_lt_Some|]. split; done.
Qed.

Lemma new_queue_spec opts now w :
  OfflineOptions.enabled opts = true ->
  exists this w',
    OfflineQueue.new opts now w = (Normal this, w')
    /\ OfflineQueue.options this = opts
    /\ wf w' this
    /\ (length (arrays w) <= OfflineQueue.queue this)%nat
    /\ items_of w' (OfflineQueue.queue this)
       = loaded now (contents (localStorage w) !! "mail818_offline_queue")
    /\ localStorage w' = load_storage now (localStorage w)
    /\ sessionStorage w' = sessionStorage w.
Proof.
  intros Hen. unfold OfflineQueue.new. rewrite Hen.
  unfold bind at 1. unfold alloc_array at 1.
  set (w0 := mkWorld _ _ _ _).
  set (this0 := OfflineQueue.mk opts _).
  unfold OfflineQueue.loadQueue, try_catch.
  unfold bind at 1. unfold on_storage at 1, getItem at 1.
  cbn [localStorage w0 objects arrays sessionStorage].
  change OfflineQueue.storageKey with "mail818_offline_queue".
  destruct (truthy (contents (localStorage w) !! "mail818_offline_queue"))
    as [text|] eqn:Htruthy.
  2:{ exists this0. eexists. split; [reflexivity|].
      unfold loaded, load_storage.
      change OfflineQueue.storageKey with "mail818_offline_queue". rewrite Htruthy.
      destruct (wf_intro (mkWorld (objects w) (arrays w ++ [[]])
                            (log (GetItem "mail818_offline_queue") (localStorage w))
                            (sessionStorage w)) this0 [])
        as [Hwf Hrefs]; [by apply list_lookup_middle|constructor|constructor|].
      split; [reflexivity|]. split; [exact Hwf|]. split; [cbn; lia|].
      split; [|by split]. unfold items_of. by rewrite Hrefs. }
  unfold bind at 1. unfold OfflineQueue.JSON_parse_array, bind at 1.
  destruct (JSON_parse_queue text) as [parsed|] eqn:Hparse; cbn [parse_or_throw].
  2:{ unfold throw, bind, alloc_array, ret. cbn [arrays objects localStorage sessionStorage].
      set (this1 := OfflineQueue.set_queue this0 _).
      exists this1. eexists. split; [reflexivity|].
      unfold loaded, load_storage.
      change OfflineQueue.storageKey with "mail818_offline_queue".
      rewrite Htruthy, Hparse.
      match goal with |- context [wf ?w' _] =>
        destruct (wf_intro w' this1 []) as [Hwf Hrefs];
          [unfold this1; cbn; by apply list_lookup_middle|constructor|constructor|]
      end.
      split; [reflexivity|]. split; [exact Hwf|].
      split; [unfold this1; cbn; rewrite length_app; cbn; lia|].
      split; [|by split]. unfold items_of. by rewrite Hrefs. }
  unfold ret at 1. unfold bind at 1. rewrite alloc_objects_spec.
  unfold alloc_array at 1. cbn [objects arrays localStorage sessionStorage].
  unfold bind at 1. unfold OfflineQueue.array_filter, bind at 1.
  unfold read_array at 1. cbn [arrays objects].
  rewrite list_lookup_middle by (by rewrite length_app).
  cbn [default from_option]. unfold alloc_array at 1.
  cbn [objects arrays localStorage sessionStorage].
  change (List.filter _ (id (seq (length (objects w)) (length parsed))))
    with (kept_refs (retained now) (objects w ++ parsed)
            (seq (length (objects w)) (length parsed))).
  set (kept := kept_refs _ _ _).
  destruct (kept_refs_valid (retained now) (objects w) parsed) as [Hnd Hv].
  fold kept in Hnd, Hv.
  pose proof (deref_kept_refs (retained now) parsed (objects w)) as Hderef.
  fold kept in Hderef.
  set (w1 := mkWorld _ _ _ _).
  set (this1 := OfflineQueue.set_queue this0 _).
  destruct (wf_intro w1 this1 kept) as [Hwf1 Hrefs]; [|exact Hnd|exact Hv|].
  { unfold w1, this1. cbn [arrays OfflineQueue.queue OfflineQueue.set_queue].
    by apply list_lookup_middle. }
  assert (Hitems : items_of w1 (OfflineQueue.queue this1)
                   = List.filter (retained now) parsed).
  { unfold items_of. rewrite Hrefs. exact Hderef. }
  assert (Hfresh : (length (arrays w) <= OfflineQueue.queue this1)%nat).
  { unfold this1. cbn. rewrite !length_app. cbn. lia. }
  unfold bind at 1. unfold array_length at 1, bind at 1, read_array at 1, ret at 1.
  fold (refs_of w1 (OfflineQueue.queue this1)). rewrite Hrefs.
  unfold bind at 1. unfold array_length at 1, bind at 1, read_array at 1, ret at 1.
  replace (default [] (arrays w1 !! length (w0.(arrays))))
    with (seq (length (objects w)) (length parsed)).
  2:{ unfold w1. cbn [arrays]. rewrite lookup_app_l by (rewrite length_app; cbn; lia).
      by rewrite list_lookup_middle. }
  rewrite length_seq.
  assert (Hlen : length kept = length (List.filter (retained now) parsed)).
  { rewrite <- Hderef. symmetry. by apply deref_length. }
  rewrite Hlen.
  assert (Hload : loaded now (contents (localStorage w) !! "mail818_offline_queue")
                  = List.filter (retained now) parsed).
  { unfold loaded. by rewrite Htruthy, Hparse. }
  destruct (length (List.filter (retained now) parsed) =? length parsed)%nat
    eqn:Hsame; cbn [negb].
  - exists this1, w1. split; [reflexivity|]. split; [reflexivity|].
    split; [exact Hwf1|]. split; [exact Hfresh|]. split; [by rewrite Hitems|].
    split; [|reflexivity].
    unfold load_storage. change OfflineQueue.storageKey with "mail818_offline_queue".
    rewrite Htruthy, Hparse. cbn zeta. by rewrite Hsame.
  - unfold bind. rewrite (saveQueue_spec this1 w1) by (by rewrite Hrefs).
    rewrite Hitems.
    exists this1. eexists. split; [reflexivity|]. split; [reflexivity|].
    split; [exact Hwf1|]. split; [exact Hfresh|]. split; [rewrite Hload; exact Hitems|].
    split; [|reflexivity].
    unfold load_storage. change OfflineQueue.storageKey with "mail818_offline_queue".
    rewrite Htruthy, Hparse. cbn zeta. by rewrite Hsame.
Qed.

(** *** What is persisted *)

Lemma save_storage_contents (items : list (QueueItem.t Data)) s :
  contents (save_storage items s)
  = match items with
    | [] => delete OfflineQueue.storageKey (contents s)
    | _ :: _ =>
        match JSON_stringify_queue items with
        | Some text =>
            match setItem_throws (contents s) OfflineQueue.storageKey text with
            | None => <[OfflineQueue.storageKey := text]> (contents s)
            | Some _ => contents s
            end
        | None => contents s
        end
    end.
Proof.
  unfold save_storage. destruct items as [|item items]; [reflexivity|].
  cbn [length Nat.eqb]. destruct (JSON_stringify_queue _) as [text|]; [|reflexivity].
  unfold setItem. by destruct (setItem_throws _ _ _).
Qed.

Lemma save_storage_written (items : list (QueueItem.t Data)) s text :
  items <> [] ->
  JSON_stringify_queue items = Some text ->
  setItem_throws (contents s) OfflineQueue.storageKey text = None ->
  contents (save_storage items s) = <[OfflineQueue.storageKey := text]> (contents s).
Proof.
  intros Hne Hs Hok. rewrite save_storage_contents, Hs, Hok. by destruct items.
Qed.

Lemma retained_spec now item :
  retained now item = true
  <-> now - QueueItem.timestamp item < 7 * 24 * 60 * 60 * 1000
      /\ QueueItem.retryCount item < 3.
Proof.
  unfold retained, OfflineQueue.maxRetries.
  rewrite andb_true_iff, Z.gtb_gt, Z.ltb_lt. lia.
Qed.

(** The sweep of the constructor: the items kept are those with an age
    below seven days and a [retryCount] below 3, in their order, and the
    queue is saved again when an item was dropped. *)
Lemma loadQueue_keeps_retained opts now w text parsed :
  OfflineOptions.enabled opts = true ->
  contents (localStorage w) !! OfflineQueue.storageKey = Some text ->
  text <> EmptyString ->
  JSON_parse_queue text = Some parsed ->
  exists this w',
    OfflineQueue.new opts now w = (Normal this, w')
    /\ items_of w' (OfflineQueue.queue this) = List.filter (retained now) parsed
    /\ Forall (fun item => now - QueueItem.timestamp item < 7 * 24 * 60 * 60 * 1000
                           /\ QueueItem.retryCount item < 3)
         (items_of w' (OfflineQueue.queue this))
    /\ localStorage w'
       = (if (length (List.filter (retained now) parsed) =? length parsed)%nat
          then log (GetItem OfflineQueue.storageKey) (localStorage w)
          else save_storage (List.filter (retained now) parsed)
                 (log (GetItem OfflineQueue.storageKey) (localStorage w))).
Proof.
  intros Hen Hstored Htext Hparse.
  destruct (new_queue_spec opts now w Hen)
    as (this & w' & Hnew & _ & _ & _ & Hitems & Hlocal & _).
  change "mail818_offline_queue" with OfflineQueue.storageKey in Hitems.
  assert (Htruthy : truthy (Some text) = Some text) by (by destruct text).
  unfold loaded in Hitems. unfold load_storage in Hlocal.
  rewrite Hstored, Htruthy, Hparse in Hitems, Hlocal.
  exists this, w'. split; [exact Hnew|]. split; [exact Hitems|]. split; [|exact Hlocal].
  rewrite Hitems. apply Forall_forall. intros item Hin.
  apply list_elem_of_In, List.filter_In in Hin as [_ Hkept].
  by apply retained_spec.
Qed.

(** *** Snapshots *)

Lemma getAll_copy this w :
  wf w this ->
  let q := OfflineQueue.queue this in
  exists a w',
    OfflineQueue.getAll this w = (Normal a, w')
    /\ a = length (arrays w) /\ a <> q
    /\ wf w' this
    /\ refs_of w' a = refs_of w q
    /\ items_of w' a = items_of w q
    /\ items_of w' q = items_of w q
    /\ localStorage w' = localStorage w.
Proof.
  intros (Hq & Hnd & Hv) q. rewrite getAll_spec. fold q.
  eexists _, _. split; [reflexivity|]. split; [reflexivity|].
  assert (Ha : refs_of (mkWorld (objects w) (arrays w ++ [refs_of w q])
                          (localStorage w) (sessionStorage w)) (length (arrays w))
               = refs_of w q).
  { unfold refs_of at 1. cbn. by rewrite list_lookup_middle. }
  assert (Hsame : refs_of (mkWorld (objects w) (arrays w ++ [refs_of w q])
                             (localStorage w) (sessionStorage w)) q
                  = refs_of w q).
  { unfold refs_of at 1. cbn. by rewrite lookup_app_l. }
  split; [fold q in Hq; lia|]. split.
  { split; [cbn; rewrite length_app; fold q in Hq; lia|]. fold q. by rewrite Hsame. }
  split; [exact Ha|]. unfold items_of. by rewrite Ha, Hsame.
Qed.

(** An array other than the queue's keeps its items through [add] and
    [remove]. *)
Lemma add_frame this ulid now data w w' a :
  OfflineQueue.add this ulid now data w = (Normal tt, w') ->
  wf w this ->
  a <> OfflineQueue.queue this ->
  Forall (fun r => (r < length (objects w))%nat) (refs_of w a) ->
  refs_of w' a = refs_of w a /\ items_of w' a = items_of w a.
Proof.
  intros Hadd Hwf Ha Hv.
  destruct (OfflineOptions.queueSubmissions (OfflineQueue.options this)) eqn:Hqs.
  - destruct (add_spec this ulid now data w Hwf Hqs)
      as (w1 & Hadd1 & _ & _ & _ & _ & Hobjs & Harrs).
    rewrite Hadd in Hadd1. injection Hadd1 as <-.
    assert (Hrefs : refs_of w' a = refs_of w a).
    { unfold refs_of. rewrite Harrs. by rewrite list_lookup_insert_ne. }
    split; [exact Hrefs|]. unfold items_of. rewrite Hrefs, Hobjs. by apply deref_alloc.
  - unfold OfflineQueue.add in Hadd. rewrite Hqs in Hadd. by injection Hadd as <-.
Qed.

Lemma remove_frame this item w w' a :
  OfflineQueue.remove this item w = (Normal tt, w') ->
  wf w this ->
  a <> OfflineQueue.queue this ->
  refs_of w' a = refs_of w a /\ items_of w' a = items_of w a.
Proof.
  intros Hrem Hwf Ha.
  pose proof (remove_spec this item w Hwf) as Hspec. cbn zeta in Hspec.
  destruct (list_find (same_id item) _) as [[index x]|].
  - destruct Hspec as (w1 & Hrem1 & _ & _ & _ & _ & Hobjs & Harrs).
    rewrite Hrem in Hrem1. injection Hrem1 as <-.
    assert (Hrefs : refs_of w' a = refs_of w a).
    { unfold refs_of. rewrite Harrs. by rewrite list_lookup_insert_ne. }
    split; [exact Hrefs|]. unfold items_of. by rewrite Hrefs, Hobjs.
  - rewrite Hrem in Hspec. by injection Hspec as <-.
Qed.

(** *** [add] *)

(** C8. With [queueSubmissions = false], [add(data)] returns at once: the
    heap, with the queue in it, and both stores, log of calls included,
    are as they were. *)
Theorem add_without_queueSubmissions this ulid now data w :
  OfflineOptions.queueSubmissions (OfflineQueue.options this) = false ->
  OfflineQueue.add this ulid now data w = (Normal tt, w)
  /\ forall a w', OfflineQueue.getAll this w = (Normal a, w') ->
                  items_of w' a = items_of w (OfflineQueue.queue this)
                  /\ localStorage w' = localStorage w.
Proof.
  intros Hqs. split.
  - unfold OfflineQueue.add. by rewrite Hqs.
  - intros a w'. rewrite getAll_spec. intros [= <- <-]. split; [|reflexivity].
    unfold items_of, refs_of. cbn. by rewrite list_lookup_middle.
Qed.

(** *** [incrementRetry] *)

(** C10. When no item of the queue has the identifier of [item],
    [incrementRetry(item)] returns [false] and changes nothing: not the
    heap, not the stores, not the log of their calls. *)
Theorem incrementRetry_absent this item w :
  Forall (fun other => QueueItem.id other <> QueueItem.id item)
    (items_of w (OfflineQueue.queue this)) ->
  OfflineQueue.incrementRetry this item w = (Normal false, w).
Proof.
  intros Habsent.
  unfold OfflineQueue.incrementRetry, bind, read_array. cbn beta iota.
  fold (refs_of w (OfflineQueue.queue this)).
  by rewrite (list_find_no_match (objects w) item _ Habsent).
Qed.

(** *** Construction *)

Lemma truthy_stringified (items : list (QueueItem.t Data)) text :
  JSON_stringify_queue items = Some text -> truthy (Some text) = Some text.
Proof.
  intros Hs. destruct text; [|reflexivity].
  by destruct (JSON_stringify_queue_truthy _ _ Hs).
Qed.

Lemma empty_queue_refs this w :
  wf w this ->
  items_of w (OfflineQueue.queue this) = [] ->
  refs_of w (OfflineQueue.queue this) = [].
Proof.
  intros (_ & _ & Hv) Hitems. apply nil_length_inv.
  rewrite <- (deref_length _ _ Hv). fold (items_of w (OfflineQueue.queue this)).
  by rewrite Hitems.
Qed.

(** C6. [add(data)] on a queue with [queueSubmissions = true], and then
    [new OfflineQueue(options)] with [enabled = true]: when the store took
    the text of the queue, [JSON.parse] gives back what [JSON.stringify]
    was given, and less than seven days have passed, [getAll()] on the
    new queue has an item with the payload [data], the identifier and the
    time of the [add], and [retryCount] 0. *)
Theorem add_then_reload this ulid now data w text opts' now' :
  let q := OfflineQueue.queue this in
  let item := QueueItem.mk ulid data now 0 in
  wf w this ->
  OfflineOptions.queueSubmissions (OfflineQueue.options this) = true ->
  JSON_stringify_queue (items_of w q ++ [item]) = Some text ->
  setItem_throws (contents (localStorage w)) OfflineQueue.storageKey text = None ->
  JSON_parse_queue text = Some (items_of w q ++ [item]) ->
  OfflineOptions.enabled opts' = true ->
  now' - now < 7 * 24 * 60 * 60 * 1000 ->
  exists w1 this' w2 a w3,
    OfflineQueue.add this ulid now data w = (Normal tt, w1)
    /\ OfflineQueue.new opts' now' w1 = (Normal this', w2)
    /\ OfflineQueue.getAll this' w2 = (Normal a, w3)
    /\ item ∈ items_of w3 a.
Proof.
  intros q item Hwf Hqs Hs Hok Hparse Hen Hage.
  destruct (add_spec this ulid now data w Hwf Hqs)
    as (w1 & Hadd & _ & _ & Hlocal & _).
  fold q item in Hlocal.
  assert (Hstored : contents (localStorage w1) !! OfflineQueue.storageKey = Some text).
  { rewrite Hlocal, (save_storage_written _ _ text); [|by destruct (items_of w q)|done..].
    apply lookup_insert_eq. }
  destruct (new_queue_spec opts' now' w1 Hen)
    as (this' & w2 & Hnew & _ & Hwf2 & _ & Hitems & _).
  change "mail818_offline_queue" with OfflineQueue.storageKey in Hitems.
  rewrite Hstored in Hitems. unfold loaded in Hitems.
  rewrite (truthy_stringified _ _ Hs), Hparse in Hitems.
  destruct (getAll_copy this' w2 Hwf2) as (a & w3 & Hget & _ & _ & _ & _ & Ha & _).
  exists w1, this', w2, a, w3. repeat (split; [done|]).
  rewrite Ha, Hitems. apply list_elem_of_In, List.filter_In. split.
  - apply List.in_or_app. right. by left.
  - apply retained_spec. cbn. lia.
Qed.

(** *** [getAll] and [remove] *)

(** C7. [getAll()] returns a newly allocated array, not the array of
    the queue, with the items of the queue in their order; a later
    [remove] or [add] on the queue does not change what that array
    holds.  [add] appends.  [remove(item)] deletes the first item with
    the identifier of [item] and keeps the others in their order, and
    changes nothing when there is none.  Hence, on an empty queue,
    adding [a], [b], [c] makes [getAll()] return them in this order, and
    after [remove(b)] it returns [a], [c]. *)
Theorem getAll_copy_and_remove this w item :
  let q := OfflineQueue.queue this in
  wf w this ->
  (exists snapshot w1,
      OfflineQueue.getAll this w = (Normal snapshot, w1)
      /\ snapshot = length (arrays w) /\ snapshot <> q
      /\ items_of w1 snapshot = items_of w q
      /\ items_of w1 q = items_of w q
      /\ (forall other w2,
            OfflineQueue.remove this other w1 = (Normal tt, w2) ->
            items_of w2 snapshot = items_of w q)
      /\ (forall ulid now data w2,
            OfflineQueue.add this ulid now data w1 = (Normal tt, w2) ->
            items_of w2 snapshot = items_of w q))
  /\ match list_find (same_id item) (items_of w q) with
     | Some (index, _) =>
         exists w',
           OfflineQueue.remove this item w = (Normal tt, w')
           /\ items_of w' q = delete index (items_of w q)
     | None => OfflineQueue.remove this item w = (Normal tt, w)
     end
  /\ forall ia ib ic ta tb tc a b c,
       OfflineOptions.queueSubmissions (OfflineQueue.options this) = true ->
       items_of w q = [] ->
       ia <> ib ->
       exists w1 w2 w3 first w4 w5 second w6,
         OfflineQueue.add this ia ta a w = (Normal tt, w1)
         /\ OfflineQueue.add this ib tb b w1 = (Normal tt, w2)
         /\ OfflineQueue.add this ic tc c w2 = (Normal tt, w3)
         /\ OfflineQueue.getAll this w3 = (Normal first, w4)
         /\ items_of w4 first
            = [QueueItem.mk ia a ta 0; QueueItem.mk ib b tb 0; QueueItem.mk ic c tc 0]
         /\ OfflineQueue.remove this (QueueItem.mk ib b tb 0) w4 = (Normal tt, w5)
         /\ OfflineQueue.getAll this w5 = (Normal second, w6)
         /\ items_of w6 second = [QueueItem.mk ia a ta 0; QueueItem.mk ic c tc 0]
         /\ items_of w6 first
            = [QueueItem.mk ia a ta 0; QueueItem.mk ib b tb 0; QueueItem.mk ic c tc 0].
Proof.
  intros q Hwf. split; [|split].
  - destruct (getAll_copy this w Hwf)
      as (snapshot & w1 & Hget & Hfresh & Hne & Hwf1 & Hrefs & Hsnap & Hq & _).
    exists snapshot, w1. repeat (split; [done|]). split.
    + intros other w2 Hrem.
      destruct (remove_frame this other w1 w2 snapshot Hrem Hwf1 Hne) as [_ ->].
      exact Hsnap.
    + intros ulid now data w2 Hadd.
      destruct (add_frame this ulid now data w1 w2 snapshot Hadd Hwf1 Hne) as [_ ->];
        [|exact Hsnap].
      rewrite Hrefs. destruct Hwf as (_ & _ & Hv).
      replace (objects w1) with (objects w); [exact Hv|].
      rewrite getAll_spec in Hget. by injection Hget as _ <-.
  - pose proof (remove_spec this item w Hwf) as Hspec. cbn zeta in Hspec. fold q in Hspec.
    destruct (list_find (same_id item) (items_of w q)) as [[index x]|]; [|exact Hspec].
    destruct Hspec as (w' & Hrem & _ & Hitems & _). by exists w'.
  - intros ia ib ic ta tb tc a b c Hqs Hempty Hab.
    destruct (add_spec this ia ta a w Hwf Hqs) as (w1 & Ha & Hwf1 & Hi1 & _).
    destruct (add_spec this ib tb b w1 Hwf1 Hqs) as (w2 & Hb & Hwf2 & Hi2 & _).
    destruct (add_spec this ic tc c w2 Hwf2 Hqs) as (w3 & Hc & Hwf3 & Hi3 & _).
    fold q in Hi1, Hi2, Hi3. rewrite Hempty in Hi1. rewrite Hi1 in Hi2. rewrite Hi2 in Hi3.
    cbn [app] in Hi1, Hi2, Hi3.
    destruct (getAll_copy this w3 Hwf3)
      as (first & w4 & Hget & _ & Hne & Hwf4 & _ & Hfirst & Hq4 & _).
    fold q in Hfirst, Hq4. rewrite Hi3 in Hfirst, Hq4.
    pose proof (remove_spec this (QueueItem.mk ib b tb 0) w4 Hwf4) as Hspec.
    cbn zeta in Hspec. fold q in Hspec. rewrite Hq4 in Hspec.
    cbn [list_find] in Hspec.
    rewrite decide_False in Hspec by (unfold same_id; cbn; congruence).
    rewrite decide_True in Hspec by reflexivity.
    cbn [fmap option_fmap option_map prod_map fst snd delete list_delete] in Hspec.
    destruct Hspec as (w5 & Hrem & Hwf5 & Hi5 & _).
    destruct (remove_frame this _ w4 w5 first Hrem Hwf4 Hne) as [_ Hkeep].
    destruct (getAll_copy this w5 Hwf5)
      as (second & w6 & Hget' & Hsecond & _ & _ & _ & Hsnd & _).
    fold q in Hsnd. rewrite Hi5 in Hsnd.
    exists w1, w2, w3, first, w4, w5, second, w6. repeat (split; [done|]).
    rewrite <- Hfirst, <- Hkeep.
    rewrite getAll_spec in Hget'. injection Hget' as _ <-.
    unfold items_of, refs_of. cbn [objects arrays].
    rewrite lookup_app_l; [reflexivity|].
    apply lookup_lt_is_Some. unfold items_of, refs_of in Hkeep, Hfirst.
    destruct (arrays w5 !! first) eqn:Hlook; [eauto|].
    cbn in Hkeep. rewrite <- Hkeep in Hfirst. discriminate.
Qed.

(** *** The retry ceiling *)



(** [incrementRetry] on an item of the queue. *)
Lemma incrementRetry_present this item w index queueItem :
  let q := OfflineQueue.queue this in
  wf w this ->
  list_find (same_id item) (items_of w q) = Some (index, queueItem) ->
  exists w',
    OfflineQueue.incrementRetry this item w
    = (Normal (QueueItem.retryCount queueItem + 1 <? 3), w')
    /\ wf w' this
    /\ items_of w' q = <[index := increment queueItem]> (items_of w q)
    /\ localStorage w'
       = save_storage (<[index := increment queueItem]> (items_of w q)) (localStorage w)
    /\ forall text,
         JSON_stringify_queue (<[index := increment queueItem]> (items_of w q)) = Some text ->
         setItem_throws (contents (localStorage w)) OfflineQueue.storageKey text = None ->
         contents (localStorage w')
         = <[OfflineQueue.storageKey := text]> (contents (localStorage w)).
Proof.
  intros q Hwf Hfind.
  pose proof (incrementRetry_spec this item w Hwf) as Hspec. cbn zeta in Hspec.
  fold q in Hspec. rewrite Hfind in Hspec.
  destruct Hspec as (w' & Hinc & Hwf' & Hitems & Hlocal & _).
  exists w'. repeat (split; [done|]).
  intros text Hs Hok. rewrite Hlocal. apply save_storage_written; [|done..].
  destruct (proj1 (list_find_Some _ _ _ _) Hfind) as (Hlook & _).
  apply lookup_lt_Some in Hlook. intros Hnil.
  apply (f_equal length) in Hnil. rewrite length_insert in Hnil. cbn in Hnil. lia.
Qed.

End QueueTheory.

Section QueueReference.
#[local] Existing Instance unbounded_host.

Lemma one_item_window_wf opts : wf one_item_window (OfflineQueue.mk opts 0).
Proof.
  split; [cbn; lia|]. split; [apply NoDup_singleton|].
  repeat constructor.
Qed.

(** C3, at the boundary.  An item stored with [retryCount] 0 whose age
    is seven days exactly, so not above seven days, is dropped when the
    queue is constructed, and the key is removed from the store: the
    filter keeps [item.timestamp > cutoff], which is an age below seven
    days. *)
Theorem loadQueue_drops_item_aged_seven_days :
  let now := 1700000000000 in
  JSON_parse_queue (Json.print (Json.Array [Json.of_item week_old_item]))
  = Some [week_old_item]
  /\ QueueItem.retryCount week_old_item = 0
  /\ now - QueueItem.timestamp week_old_item = 7 * 24 * 60 * 60 * 1000
  /\ exists this w',
       OfflineQueue.new accepting now week_old_window = (Normal this, w')
       /\ items_of w' (OfflineQueue.queue this) = []
       /\ contents (localStorage w') !! OfflineQueue.storageKey = None.
Proof.
  cbn zeta. split; [by vm_compute|]. split; [reflexivity|]. split; [reflexivity|].
  exists (OfflineQueue.mk accepting 2),
    (OfflineQueue.new accepting 1700000000000 week_old_window).2.
  split.
  { rewrite (surjective_pairing (OfflineQueue.new accepting 1700000000000 week_old_window))
      at 1.
    f_equal; vm_compute; reflexivity. }
  split; vm_compute; reflexivity.
Qed.

Lemma add_without_queueSubmissions_witness :
  OfflineQueue.add (OfflineQueue.mk draining 0) new_id 1700000000500
    (Json.String "b") one_item_window
  = (Normal tt, one_item_window)
  /\ forall a w',
       OfflineQueue.getAll (OfflineQueue.mk draining 0) one_item_window = (Normal a, w') ->
       items_of w' a = items_of one_item_window 0
       /\ localStorage w' = localStorage one_item_window.
Proof.
  apply (add_without_queueSubmissions (H := unbounded_host) (OfflineQueue.mk draining 0)).
  reflexivity.
Defined.

Lemma incrementRetry_absent_witness :
  OfflineQueue.incrementRetry (OfflineQueue.mk accepting 0)
    (QueueItem.mk new_id (Json.String "b") 1700000000500 0) one_item_window
  = (Normal false, one_item_window).
Proof.
  apply (incrementRetry_absent (H := unbounded_host) (OfflineQueue.mk accepting 0)).
  repeat constructor. by vm_compute.
Defined.

Lemma add_then_reload_witness :
  exists w1 this' w2 a w3,
    OfflineQueue.add (OfflineQueue.mk accepting 0) new_id 1700000000500
      (Json.String "b") one_item_window = (Normal tt, w1)
    /\ OfflineQueue.new accepting 1700000001000 w1 = (Normal this', w2)
    /\ OfflineQueue.getAll this' w2 = (Normal a, w3)
    /\ QueueItem.mk new_id (Json.String "b") 1700000000500 0 ∈ items_of w3 a.
Proof.
  apply (add_then_reload (H := unbounded_host) (OfflineQueue.mk accepting 0) new_id 1700000000500
           (Json.String "b") one_item_window
           (Json.print (Json.Array
              [Json.of_item first_item;
               Json.of_item (QueueItem.mk new_id (Json.String "b") 1700000000500 0)]))
           accepting 1700000001000).
  - apply one_item_window_wf.
  - reflexivity.
  - reflexivity.
  - reflexivity.
  - by vm_compute.
  - reflexivity.
  - lia.
Defined.

Lemma getAll_copy_and_remove_witness :
  let this := OfflineQueue.mk accepting 0 in
  let item i d t := QueueItem.mk i (Json.String d) t 0 in
  exists w1 w2 w3 first w4 w5 second w6,
    OfflineQueue.add this "01A" 1001 (Json.String "a") empty_window = (Normal tt, w1)
    /\ OfflineQueue.add this "01B" 1002 (Json.String "b") w1 = (Normal tt, w2)
    /\ OfflineQueue.add this "01C" 1003 (Json.String "c") w2 = (Normal tt, w3)
    /\ OfflineQueue.getAll this w3 = (Normal first, w4)
    /\ items_of w4 first = [item "01A" "a" 1001; item "01B" "b" 1002; item "01C" "c" 1003]
    /\ OfflineQueue.remove this (item "01B" "b" 1002) w4 = (Normal tt, w5)
    /\ OfflineQueue.getAll this w5 = (Normal second, w6)
    /\ items_of w6 second = [item "01A" "a" 1001; item "01C" "c" 1003]
    /\ items_of w6 first = [item "01A" "a" 1001; item "01B" "b" 1002; item "01C" "c" 1003].
Proof.
  intros this item.
  destruct (getAll_copy_and_remove (H := unbounded_host) this empty_window (item "01B" "b" 1002))
    as (_ & _ & Hscenario).
  - split; [cbn; lia|]. split; constructor.
  - apply (Hscenario "01A" "01B" "01C" 1001 1002 1003
             (Json.String "a") (Json.String "b") (Json.String "c"));
      [reflexivity|reflexivity|discriminate].
Defined.

End QueueReference.

(** * Further properties of the cache *)

Section CacheFurther.
Context `{Host}.
Implicit Types (s : Storage) (this : CacheManager.t).

Lemma prefix_append (p k : string) : String.prefix p (p +:+ k) = true.
Proof.
  induction p as [|c p IH]; simpl; [by destruct k|].
  destruct (ascii_dec c c); [exact IH|done].
Qed.

Lemma append_inj (p k k' : string) : p +:+ k = p +:+ k' -> k = k'.
Proof. induction p as [|c p IH]; simpl; [done|]. intros [= Heq]. by apply IH. Qed.

(** *** [clear] *)

Lemma forEach_removeItem keys : forall s,
  exists s',
    forEach keys removeItem s = (Normal tt, s')
    /\ contents s' = foldl (fun m key => delete key m) (contents s) keys
    /\ attempts s' = attempts s.
Proof.
  induction keys as [|key keys IH]; intros s; cbn [forEach]; [by eexists|].
  unfold bind, removeItem at 1.
  destruct (IH (mkStorage (delete key (contents s)) (RemoveItem key :: calls s)))
    as (s' & -> & Hc & Ha).
  by exists s'.
Qed.

Lemma foldl_delete_lookup (keys : list string) : forall (m : gmap string string) k,
  foldl (fun m key => delete key m) m keys !! k
  = if decide (k ∈ keys) then None else m !! k.
Proof.
  induction keys as [|key keys IH]; intros m k; cbn [foldl].
  - rewrite decide_False; [done|]. apply not_elem_of_nil.
  - rewrite IH. destruct (decide (k = key)) as [->|Hne].
    + rewrite (decide_True (P := key ∈ key :: keys)) by (apply elem_of_cons; auto).
      case_decide; [done|]. apply lookup_delete_eq.
    + rewrite lookup_delete_ne by done.
      destruct (decide (k ∈ keys)) as [Hin|Hnin].
      * by rewrite decide_True by (apply elem_of_cons; auto).
      * rewrite decide_False; [done|]. rewrite elem_of_cons. tauto.
Qed.

Lemma clear_spec this s :
  exists s',
    CacheManager.clear this s = (Normal tt, s')
    /\ attempts s' = attempts s
    /\ forall k,
         contents s' !! k
         = if String.prefix CacheManager.prefix k then None else contents s !! k.
Proof.
  unfold CacheManager.clear, bind.
  destruct (prefixed_keys_spec CacheManager.prefix s) as (s1 & -> & Hc1 & Ha1).
  destruct (forEach_removeItem
              (List.filter (String.prefix CacheManager.prefix)
                 (map_to_list (contents s)).*1) s1) as (s' & -> & Hc & Ha).
  exists s'. split; [reflexivity|]. split; [congruence|].
  intros k. rewrite Hc, Hc1, foldl_delete_lookup.
  destruct (String.prefix CacheManager.prefix k) eqn:Hp.
  - case_decide as Hin; [done|].
    destruct (contents s !! k) as [v|] eqn:Hk; [|done].
    destruct Hin. apply list_elem_of_In, List.filter_In. split; [|done].
    apply list_elem_of_In, list_elem_of_fmap. exists (k, v). split; [done|].
    by apply elem_of_map_to_list.
  - rewrite decide_False; [done|].
    intros Hin. apply list_elem_of_In, List.filter_In in Hin as [_ Hin]. congruence.
Qed.

(** X1. [clear()] returns normally and removes from the store the keys
    that start with the prefix, all of them and no other: the rest of
    the store is as it was, and [setItem] is not called. *)
Theorem clear_removes_prefixed this s :
  exists s',
    CacheManager.clear this s = (Normal tt, s')
    /\ attempts s' = attempts s
    /\ forall k,
         contents s' !! k
         = if String.prefix CacheManager.prefix k then None else contents s !! k.
Proof. apply clear_spec. Qed.

(** *** [getSize] *)

Lemma measure_keys_spec fuel : forall i acc s,
  (size (contents s) - i < fuel)%nat ->
  exists s',
    CacheManager.measure_keys fuel i acc s
    = (Normal (acc + sum_list (counted <$> drop i (map_to_list (contents s))))%nat, s')
    /\ contents s' = contents s /\ attempts s' = attempts s.
Proof.
  induction fuel as [|fuel IH]; intros i acc s Hfuel; [lia|].
  cbn [CacheManager.measure_keys]. unfold bind at 1. unfold storage_length at 1.
  destruct (Nat.ltb_spec i (size (contents s))) as [Hlt|Hge].
  - unfold bind at 1. unfold storage_key at 1. cbn [contents log].
    destruct (lookup_lt_is_Some_2 (map_to_list (contents s)) i) as [[k v] Hkv].
    { by rewrite length_map_to_list. }
    rewrite list_lookup_fmap, Hkv. cbn [fmap option_fmap option_map fst].
    rewrite (drop_S _ _ _ Hkv). cbn [fmap list_fmap sum_list].
    assert (Hlook : contents s !! k = Some v).
    { apply elem_of_map_to_list, list_elem_of_lookup. eauto. }
    unfold counted at 1. cbn [fst snd].
    destruct (String.prefix CacheManager.prefix k).
    + unfold bind at 1. unfold getItem at 1. cbn [contents log]. rewrite Hlook.
      destruct v as [|c v]; cbn [truthy].
      * destruct (IH (S i) acc (log (GetItem k) (log (Key i) (log Length s))))
          as (s' & -> & Hc & Ha); [cbn; lia|].
        exists s'. split; [|auto]. cbn [contents log]. 
        match goal with
        | |- (Normal ?a, _) = (Normal ?b, _) => replace a with b by (cbn; lia)
        end; reflexivity.
      * destruct (IH (S i) (acc + (String.length k + String.length (String c v)))%nat
                    (log (GetItem k) (log (Key i) (log Length s))))
          as (s' & -> & Hc & Ha); [cbn; lia|].
        exists s'. split; [|auto]. cbn [contents log]. 
        match goal with
        | |- (Normal ?a, _) = (Normal ?b, _) => replace a with b by (cbn; lia)
        end; reflexivity.
    + destruct (IH (S i) acc (log (Key i) (log Length s)))
        as (s' & -> & Hc & Ha); [cbn; lia|].
      exists s'. split; [|auto]. cbn [contents log]. 
        match goal with
        | |- (Normal ?a, _) = (Normal ?b, _) => replace a with b by (cbn; lia)
        end; reflexivity.
  - exists (log Length s). split; [|auto].
    rewrite drop_ge by (by rewrite length_map_to_list).
    cbn [fmap list_fmap sum_list]. by rewrite Nat.add_0_r.
Qed.

Lemma cached_size_sum (m : gmap string string) :
  cached_size m = sum_list (counted <$> map_to_list m).
Proof.
  unfold cached_size. rewrite map_fold_foldr.
  induction (map_to_list m) as [|[k v] l IH]; [done|]. cbn. by rewrite IH.
Qed.

Lemma getSize_spec this s :
  exists s',
    CacheManager.getSize this s = (Normal (cached_size (contents s)), s')
    /\ contents s' = contents s
    /\ attempts s' = attempts s.
Proof.
  unfold CacheManager.getSize.
  destruct (measure_keys_spec (S (size (contents s))) 0 0 s) as (s' & Heq & Hc);
    [lia|].
  exists s'. split; [|exact Hc]. rewrite Heq, cached_size_sum. by rewrite drop_0.
Qed.

(** X2. [getSize()] returns the number of characters of the keys that
    start with the prefix and of their values, keys with an empty value
    not counted; it changes nothing in the store and does not call
    [setItem]. *)
Theorem getSize_counts this s :
  exists s',
    CacheManager.getSize this s = (Normal (cached_size (contents s)), s')
    /\ contents s' = contents s
    /\ attempts s' = attempts s.
Proof. apply getSize_spec. Qed.

Lemma counted_comm (j1 j2 z1 z2 : string) (y : nat) :
  (counted (j1, z1) + (counted (j2, z2) + y) = counted (j2, z2) + (counted (j1, z1) + y))%nat.
Proof. lia. Qed.

Lemma cached_size_insert (m : gmap string string) k v :
  (cached_size (<[k := v]> m) + from_option (fun old => counted (k, old)) 0 (m !! k)
   = counted (k, v) + cached_size m)%nat.
Proof.
  unfold cached_size. destruct (m !! k) as [old|] eqn:Hk; cbn.
  - rewrite (map_fold_delete_L _ _ k old m); [|intros; apply counted_comm|done].
    rewrite <- (insert_delete_eq m k v).
    rewrite map_fold_insert_L; [lia|intros; apply counted_comm|apply lookup_delete_eq].
  - rewrite map_fold_insert_L; [lia|intros; apply counted_comm|done].
Qed.

Lemma cached_size_no_prefix (m : gmap string string) :
  (forall k, String.prefix CacheManager.prefix k = true -> m !! k = None) ->
  cached_size m = 0%nat.
Proof.
  intros Hnone. rewrite cached_size_sum.
  assert (Hall : Forall (fun kv => counted kv = 0%nat) (map_to_list m)).
  { apply Forall_forall. intros [k v] Hin%elem_of_map_to_list.
    unfold counted. cbn. destruct (String.prefix CacheManager.prefix k) eqn:Hp; [|done].
    rewrite (Hnone k Hp) in Hin. done. }
  induction Hall as [|kv l Hkv _ IH]; [done|]. cbn. by rewrite Hkv, IH.
Qed.

(** X3. After [clear()], [getSize()] returns 0. *)
Theorem getSize_after_clear this s :
  exists s1 s2,
    CacheManager.clear this s = (Normal tt, s1)
    /\ CacheManager.getSize this s1 = (Normal 0%nat, s2).
Proof.
  destruct (clear_spec this s) as (s1 & Hclear & _ & Hlook).
  destruct (getSize_spec this s1) as (s2 & Hsize & _).
  exists s1, s2. split; [exact Hclear|]. rewrite Hsize. do 2 f_equal.
  apply cached_size_no_prefix. intros k Hp. by rewrite Hlook, Hp.
Qed.

(** X4. When [set] writes a key the store did not hold, [getSize()]
    grows by the length of the key, prefix included, and of the text
    written. *)
Theorem getSize_after_set this now now_sweep now_retry key value etag text s :
  let k := CacheManager.prefix +:+ key in
  CacheOptions.enabled (CacheManager.options this) = true ->
  JSON_stringify_entry (CacheEntry.mk value now etag) = Some text ->
  setItem_throws (contents s) k text = None ->
  contents s !! k = None ->
  exists before s0 s1 s2,
    CacheManager.getSize this s = (Normal before, s0)
    /\ CacheManager.set this now now_sweep now_retry key value etag s0 = (Normal tt, s1)
    /\ CacheManager.getSize this s1
       = (Normal (before + String.length k + String.length text)%nat, s2).
Proof.
  intros k Hen Hs Hok Hfresh.
  destruct (getSize_spec this s) as (s0 & Hsize & Hc0 & _).
  destruct (set_writes this now now_sweep now_retry key value etag text s0 Hen Hs)
    as (s1 & Hset & Hc1); [by rewrite Hc0|].
  destruct (getSize_spec this s1) as (s2 & Hsize1 & _).
  exists (cached_size (contents s)), s0, s1, s2. repeat (split; [done|]).
  rewrite Hsize1. do 2 f_equal. fold k in Hc1. rewrite Hc1, Hc0.
  pose proof (cached_size_insert (contents s) k text) as Hins.
  rewrite Hfresh in Hins. cbn in Hins.
  assert (Hcount : counted (k, text) = (String.length k + String.length text)%nat).
  { unfold counted, k. cbn [fst snd]. rewrite prefix_append.
    destruct text; [|done]. by destruct (JSON_stringify_entry_truthy _ _ Hs). }
  lia.
Qed.

(** *** [get], by what the store holds under the key *)

(** The value [get] returns for what is stored under the key. *)
Lemma get_result this now key s :
  CacheOptions.enabled (CacheManager.options this) = true ->
  (CacheManager.get this now key s).1
  = Normal (cached_value this now (contents s !! (CacheManager.prefix +:+ key))).
Proof.
  intros Hen. destruct (get_spec this now key s Hen) as (r & s' & -> & _ & Hcase).
  cbn [fst]. f_equal. unfold cached_value.
  destruct (truthy _) as [item|]; [|by destruct Hcase].
  destruct (JSON_parse_entry item) as [entry|]; [|by destruct Hcase].
  destruct (_ >? _); by destruct Hcase.
Qed.

(** *** [remove] *)

(** X5. After [remove(key)] the store has lost the key and nothing else;
    on an enabled manager [get(key)] is then a miss, and [get] of any
    other key returns what it returned before. *)
Theorem remove_then_get this now key s :
  CacheOptions.enabled (CacheManager.options this) = true ->
  exists s1 s2,
    CacheManager.remove this key s = (Normal tt, s1)
    /\ contents s1 = delete (CacheManager.prefix +:+ key) (contents s)
    /\ CacheManager.get this now key s1 = (Normal None, s2)
    /\ forall key', key' <> key ->
          (CacheManager.get this now key' s1).1 = (CacheManager.get this now key' s).1.
Proof.
  intros Hen. eexists _, _. split; [reflexivity|]. split; [reflexivity|]. split.
  - unfold CacheManager.get. rewrite Hen. cbn [negb].
    unfold try_catch, bind, getItem. cbn [contents log].
    rewrite lookup_delete_eq. reflexivity.
  - intros key' Hne. rewrite !get_result by done. cbn [contents].
    rewrite lookup_delete_ne; [done|]. intros Heq%append_inj. congruence.
Qed.

(** *** [getETag] *)

Lemma getETag_spec this key s :
  exists s',
    CacheManager.getETag this key s
    = (Normal (match truthy (contents s !! (CacheManager.prefix +:+ key)) with
               | Some item =>
                   match JSON_parse_entry item with
                   | Some entry => truthy (CacheEntry.etag entry)
                   | None => None
                   end
               | None => None
               end), s')
    /\ contents s' = contents s /\ attempts s' = attempts s.
Proof.
  unfold CacheManager.getETag, try_catch, bind, getItem.
  destruct (truthy _) as [item|]; [|by eexists].
  destruct (JSON_parse_entry item) as [entry|]; by eexists.
Qed.

(** X6. [getETag(key)] returns the tag [set] stored with the entry, and
    [null] when the entry was stored without one; it reads neither the
    clock nor [enabled], so the tag of an expired entry is returned, on a
    disabled manager too, and the store is left as it is. *)
Theorem getETag_after_set this now now_sweep now_retry key value etag text s other :
  CacheOptions.enabled (CacheManager.options this) = true ->
  JSON_stringify_entry (CacheEntry.mk value now etag) = Some text ->
  setItem_throws (contents s) (CacheManager.prefix +:+ key) text = None ->
  JSON_parse_entry text = Some (CacheEntry.mk value now etag) ->
  exists s1 s2,
    CacheManager.set this now now_sweep now_retry key value etag s = (Normal tt, s1)
    /\ CacheManager.getETag other key s1 = (Normal (truthy etag), s2)
    /\ contents s2 = contents s1.
Proof.
  intros Hen Hs Hok Hparse.
  destruct (set_writes this now now_sweep now_retry key value etag text s Hen Hs Hok)
    as (s1 & Hset & Hc1).
  destruct (getETag_spec other key s1) as (s2 & Hget & Hc2 & _).
  exists s1, s2. split; [exact Hset|]. split; [|exact Hc2].
  rewrite Hget, Hc1, lookup_insert_eq.
  assert (Ht : truthy (Some text) = Some text).
  { destruct text; [|done]. by destruct (JSON_stringify_entry_truthy _ _ Hs). }
  by rewrite Ht, Hparse.
Qed.

(** *** The sweep *)

Lemma cached_value_swept this now_sweep now (m : gmap string string) key :
  now_sweep <= now ->
  cached_value this now (swept this now_sweep m !! (CacheManager.prefix +:+ key))
  = cached_value this now (m !! (CacheManager.prefix +:+ key)).
Proof.
  intros Hle. rewrite swept_lookup, prefix_append. cbn [andb].
  destruct (stale this now_sweep (m !! _)) eqn:Hstale; [|done].
  unfold stale in Hstale. unfold cached_value.
  destruct (truthy (m !! _)) as [item|]; [|done]. cbn.
  destruct (JSON_parse_entry item) as [entry|]; [|done].
  apply Z.gtb_gt in Hstale.
  destruct (Z.gtb_spec (now - CacheEntry.timestamp entry)
              (CacheOptions.ttl (CacheManager.options this))); [done|lia].
Qed.

(** X7. The sweep does not change what [get] returns: for a clock that
    does not go back, [get(key)] after [cleanExpired()] returns what it
    would have returned without it. *)
Theorem get_after_cleanExpired this now_sweep now key s :
  CacheOptions.enabled (CacheManager.options this) = true ->
  now_sweep <= now ->
  exists s1,
    CacheManager.cleanExpired this now_sweep s = (Normal tt, s1)
    /\ (CacheManager.get this now key s1).1 = (CacheManager.get this now key s).1.
Proof.
  intros Hen Hle.
  destruct (cleanExpired_spec this now_sweep s) as (s1 & Hclean & Hc & _).
  exists s1. split; [exact Hclean|].
  rewrite !get_result by done. rewrite Hc. by rewrite cached_value_swept.
Qed.

Lemma swept_idempotent this now (m : gmap string string) :
  swept this now (swept this now m) = swept this now m.
Proof.
  apply map_eq. intros k. rewrite !swept_lookup.
  destruct (String.prefix CacheManager.prefix k); cbn [andb]; [|done].
  destruct (stale this now (m !! k)) eqn:Hstale; [done|]. by rewrite Hstale.
Qed.

(** X8. The sweep touches no key outside the prefix, keeps every
    entry under the prefix that parses and has not expired, and a
    second sweep at the same time removes nothing more. *)
Theorem cleanExpired_twice this now s :
  exists s1 s2,
    CacheManager.cleanExpired this now s = (Normal tt, s1)
    /\ CacheManager.cleanExpired this now s1 = (Normal tt, s2)
    /\ contents s2 = contents s1
    /\ (forall k, String.prefix CacheManager.prefix k = false ->
                  contents s1 !! k = contents s !! k)
    /\ (forall k item entry,
          contents s !! k = Some item ->
          JSON_parse_entry item = Some entry ->
          now - CacheEntry.timestamp entry <= CacheOptions.ttl (CacheManager.options this) ->
          contents s1 !! k = Some item).
Proof.
  destruct (cleanExpired_spec this now s) as (s1 & Hclean & Hc1 & _).
  destruct (cleanExpired_spec this now s1) as (s2 & Hclean' & Hc2 & _).
  exists s1, s2. repeat (split; [done|]). split; [|split].
  - by rewrite Hc2, Hc1, swept_idempotent.
  - intros k Hp. by rewrite Hc1, swept_lookup, Hp.
  - intros k item entry Hk Hparse Hfresh. rewrite Hc1, swept_lookup, Hk.
    replace (stale this now (Some item)) with false; [by rewrite andb_false_r|].
    unfold stale. destruct item; [done|]. cbn [truthy]. rewrite Hparse.
    symmetry. rewrite Z.gtb_ltb. apply Z.ltb_ge. lia.
Qed.

(** *** [set] and the other keys *)

(** [set], by cases. *)
Lemma set_spec this now now_sweep now_retry key value etag s :
  let k := CacheManager.prefix +:+ key in
  exists s',
    CacheManager.set this now now_sweep now_retry key value etag s = (Normal tt, s')
    /\ if CacheOptions.enabled (CacheManager.options this) then
         match JSON_stringify_entry (CacheEntry.mk value now etag) with
         | None => contents s' = contents s /\ attempts s' = attempts s
         | Some text =>
             match setItem_throws (contents s) k text with
             | None =>
                 contents s' = <[k := text]> (contents s)
                 /\ attempts s' = (k, text) :: attempts s
             | Some QuotaExceededError =>
                 let m := swept this now_sweep (contents s) in
                 match JSON_stringify_entry (CacheEntry.mk value now_retry etag) with
                 | None => contents s' = m /\ attempts s' = (k, text) :: attempts s
                 | Some text' =>
                     attempts s' = (k, text') :: (k, text) :: attempts s
                     /\ contents s' = match setItem_throws m k text' with
                                      | None => <[k := text']> m
                                      | Some _ => m
                                      end
                 end
             | Some _ => contents s' = contents s /\ attempts s' = (k, text) :: attempts s
             end
         end
       else s' = s.
Proof.
  intros k. unfold CacheManager.set.
  destruct (CacheOptions.enabled _); cbn [negb]; [|by eexists].
  unfold try_catch at 1.
  pose proof (write_entry_spec this now key value etag s) as Hw.
  fold k in Hw.
  destruct (JSON_stringify_entry (CacheEntry.mk value now etag)) as [text|].
  2:{ rewrite Hw. by eexists. }
  destruct Hw as (s1 & Ha1 & Hw).
  destruct (setItem_throws (contents s) k text) as [e|].
  2:{ destruct Hw as [-> Hc]. by eexists. }
  destruct Hw as [-> Hc1].
  destruct e; try (eexists; split; [reflexivity|]; by rewrite Hc1, Ha1).
  unfold bind.
  destruct (cleanExpired_spec this now_sweep s1) as (s2 & -> & Hc2 & Ha2).
  rewrite Hc1 in Hc2. unfold try_catch.
  pose proof (write_entry_spec this now_retry key value etag s2) as Hw.
  fold k in Hw. cbn zeta.
  destruct (JSON_stringify_entry (CacheEntry.mk value now_retry etag)) as [text'|].
  2:{ rewrite Hw. eexists; split; [reflexivity|]. by rewrite Hc2, Ha2, Ha1. }
  destruct Hw as (s3 & Ha3 & Hw). rewrite Hc2 in Hw.
  destruct (setItem_throws _ k text') as [e|]; destruct Hw as [-> Hc3];
    (eexists; split; [reflexivity|]); by rewrite Hc3, Ha3, Ha2, Ha1, ?Hc2.
Qed.


(** X9. [set(key)] does not change what [get] returns for another key,
    whichever way [set] goes, the sweep and the second write included,
    as long as the clock does not go back. *)
Theorem set_keeps_other_keys this now now_sweep now_retry later key key' value etag s :
  CacheOptions.enabled (CacheManager.options this) = true ->
  key' <> key ->
  now_sweep <= later ->
  exists s1,
    CacheManager.set this now now_sweep now_retry key value etag s = (Normal tt, s1)
    /\ (CacheManager.get this later key' s1).1 = (CacheManager.get this later key' s).1.
Proof.
  intros Hen Hne Hle.
  destruct (set_spec this now now_sweep now_retry key value etag s)
    as (s1 & Hset & Hcase).
  exists s1. split; [exact Hset|]. rewrite !get_result by done. f_equal.
  assert (Hk : CacheManager.prefix +:+ key <> CacheManager.prefix +:+ key').
  { intros Heq%append_inj. congruence. }
  rewrite Hen in Hcase. cbn zeta in Hcase.
  destruct (JSON_stringify_entry (CacheEntry.mk value now etag)) as [text|];
    [|by destruct Hcase as [-> _]].
  destruct (setItem_throws (contents s) _ text) as [[]|];
    try (by destruct Hcase as [-> _]).
  - destruct (JSON_stringify_entry (CacheEntry.mk value now_retry etag)) as [text'|].
    + destruct Hcase as [_ ->].
      destruct (setItem_throws _ _ text');
        rewrite ?lookup_insert_ne by done; by apply cached_value_swept.
    + destruct Hcase as [-> _]. by apply cached_value_swept.
  - destruct Hcase as [-> _]. by rewrite lookup_insert_ne.
Qed.
End CacheFurther.

(** * Further properties of the queue *)

Section QueueFurther.
Context `{Host}.
Implicit Types (w : World) (this : OfflineQueue.t) (item : QueueItem.t Data).

(** *** The store and the queue in memory *)

Lemma loaded_saved (items : list (QueueItem.t Data)) s now :
  persists items (contents s) ->
  loaded now (contents (save_storage items s) !! OfflineQueue.storageKey)
  = List.filter (retained now) items.
Proof.
  intros Hp. rewrite save_storage_contents. destruct items as [|item items].
  - by rewrite lookup_delete_eq.
  - destruct Hp as (text & Hs & Hok & Hparse). rewrite Hs, Hok, lookup_insert_eq.
    unfold loaded. by rewrite (truthy_stringified _ _ Hs), Hparse.
Qed.

Lemma filter_all {A} (f : A -> bool) (l : list A) :
  length (List.filter f l) = length l -> List.filter f l = l.
Proof.
  induction l as [|x l IH]; [done|]. cbn. destruct (f x); cbn.
  - intros [= Hlen]. by rewrite IH.
  - intros Hlen. pose proof (List.filter_length_le f l). lia.
Qed.

Lemma filter_filter {A} (f : A -> bool) (l : list A) :
  List.filter f (List.filter f l) = List.filter f l.
Proof.
  induction l as [|x l IH]; [done|]. cbn. destruct (f x) eqn:Hx; [|done].
  cbn. by rewrite Hx, IH.
Qed.

(** X10. Every call of [add], [remove] or [incrementRetry] keeps the
    heap of the queue well formed, and keeps the store in step with the
    queue in memory when the store takes the save: a queue constructed
    from the store afterwards is the queue in memory, without the items
    the sweep drops. *)
Theorem call_keeps_in_sync this c w :
  wf w this ->
  in_sync w this ->
  exists w',
    run_call this c w = (Normal tt, w')
    /\ wf w' this
    /\ (persists (items_of w' (OfflineQueue.queue this)) (contents (localStorage w)) ->
        in_sync w' this).
Proof.
  intros Hwf Hsync. destruct c as [ulid now data|item|item]; cbn [run_call].
  - destruct (OfflineOptions.queueSubmissions (OfflineQueue.options this)) eqn:Hqs.
    + destruct (add_spec this ulid now data w Hwf Hqs)
        as (w' & Hadd & Hwf' & Hitems & Hlocal & _).
      exists w'. split; [exact Hadd|]. split; [exact Hwf'|].
      intros Hp now'. rewrite Hlocal. rewrite Hitems in Hp |- *. by apply loaded_saved.
    + exists w. split; [|by split]. unfold OfflineQueue.add. by rewrite Hqs.
  - pose proof (remove_spec this item w Hwf) as Hspec. cbn zeta in Hspec.
    destruct (list_find (same_id item) _) as [[index x]|].
    + destruct Hspec as (w' & Hrem & Hwf' & Hitems & Hlocal & _).
      exists w'. split; [exact Hrem|]. split; [exact Hwf'|].
      intros Hp now'. rewrite Hlocal. rewrite Hitems in Hp |- *. by apply loaded_saved.
    + exists w. by split.
  - pose proof (incrementRetry_spec this item w Hwf) as Hspec. cbn zeta in Hspec.
    unfold bind.
    destruct (list_find (same_id item) _) as [[index x]|].
    + destruct Hspec as (w' & -> & Hwf' & Hitems & Hlocal & _).
      exists w'. split; [reflexivity|]. split; [exact Hwf'|].
      intros Hp now'. rewrite Hlocal. rewrite Hitems in Hp |- *. by apply loaded_saved.
    + rewrite Hspec. exists w. by split.
Qed.

(** X11. The constructor, with [enabled = true], returns a well-formed
    queue that the store is in step with, when the store takes the save
    of the items kept (a save made only when an item was dropped). *)
Theorem new_in_sync opts now w :
  OfflineOptions.enabled opts = true ->
  persists (loaded now (contents (localStorage w) !! OfflineQueue.storageKey))
    (contents (localStorage w)) ->
  exists this w',
    OfflineQueue.new opts now w = (Normal this, w')
    /\ wf w' this
    /\ in_sync w' this.
Proof.
  intros Hen Hp.
  destruct (new_queue_spec opts now w Hen)
    as (this & w' & Hnew & _ & Hwf & _ & Hitems & Hlocal & _).
  change "mail818_offline_queue" with OfflineQueue.storageKey in Hitems.
  exists this, w'. split; [exact Hnew|]. split; [exact Hwf|].
  intros now'. rewrite Hitems, Hlocal. unfold load_storage, loaded in *.
  destruct (truthy (contents (localStorage w) !! OfflineQueue.storageKey))
    as [text|] eqn:Htruthy; cbn [log contents]; [|by rewrite Htruthy].
  destruct (JSON_parse_queue text) as [parsed|] eqn:Hparse;
    cbn [log contents]; [|by rewrite Htruthy, Hparse].
  cbn zeta. destruct (Nat.eqb_spec (length (List.filter (retained now) parsed))
                        (length parsed)) as [Hsame|Hdropped].
  - cbn [log contents]. rewrite Htruthy, Hparse. by rewrite (filter_all _ _ Hsame).
  - fold (loaded now' (contents (save_storage (List.filter (retained now) parsed)
                                   (log (GetItem OfflineQueue.storageKey) (localStorage w)))
                       !! OfflineQueue.storageKey)).
    by rewrite loaded_saved.
Qed.

(** *** [clear] *)

Lemma queue_clear_spec this w :
  exists this' w',
    OfflineQueue.clear this w = (Normal this', w')
    /\ wf w' this'
    /\ refs_of w' (OfflineQueue.queue this') = []
    /\ contents (localStorage w') = delete OfflineQueue.storageKey (contents (localStorage w))
    /\ objects w' = objects w
    /\ arrays w' = arrays w ++ [[]].
Proof.
  unfold OfflineQueue.clear, bind. unfold alloc_array at 1.
  set (w0 := mkWorld _ _ _ _).
  set (this' := OfflineQueue.set_queue this _).
  destruct (wf_intro w0 this' []) as [Hwf' Hrefs]; [|constructor|constructor|].
  { unfold w0, this'. cbn. by apply list_lookup_middle. }
  rewrite (saveQueue_spec this' w0) by (destruct Hwf' as (_ & _ & Hv); exact Hv).
  assert (Hitems : items_of w0 (OfflineQueue.queue this') = []).
  { unfold items_of. by rewrite Hrefs. }
  rewrite Hitems. unfold ret.
  exists this'. eexists. split; [reflexivity|]. split; [exact Hwf'|].
  split; [exact Hrefs|]. split; [|by split].
  unfold set_local, w0. cbn [localStorage]. by rewrite save_storage_contents.
Qed.

(** X12. [clear()] leaves a queue with no item, of size 0, and removes
    the key from the store, so that a queue constructed afterwards is
    empty too; an array [getAll()] returned before still holds what it
    held. *)
Theorem clear_empties this w opts now :
  wf w this ->
  OfflineOptions.enabled opts = true ->
  exists snapshot w0 this' w1 reloaded w2,
    OfflineQueue.getAll this w = (Normal snapshot, w0)
    /\ OfflineQueue.clear this w0 = (Normal this', w1)
    /\ wf w1 this'
    /\ OfflineQueue.size this' w1 = (Normal 0%nat, w1)
    /\ items_of w1 (OfflineQueue.queue this') = []
    /\ contents (localStorage w1) = delete OfflineQueue.storageKey (contents (localStorage w))
    /\ items_of w1 snapshot = items_of w (OfflineQueue.queue this)
    /\ OfflineQueue.new opts now w1 = (Normal reloaded, w2)
    /\ items_of w2 (OfflineQueue.queue reloaded) = [].
Proof.
  intros Hwf Hen.
  destruct (getAll_copy this w Hwf)
    as (snapshot & w0 & Hget & Hfresh & _ & Hwf0 & _ & Hsnap & _ & Hlocal0).
  destruct (queue_clear_spec this w0)
    as (this' & w1 & Hclear & Hwf1 & Hrefs & Hstored & Hobjs & Harrs).
  rewrite Hlocal0 in Hstored.
  destruct (new_queue_spec opts now w1 Hen)
    as (reloaded & w2 & Hnew & _ & _ & _ & Hloaded & _).
  change "mail818_offline_queue" with OfflineQueue.storageKey in Hloaded.
  rewrite Hstored, lookup_delete_eq in Hloaded.
  exists snapshot, w0, this', w1, reloaded, w2.
  split; [exact Hget|]. split; [exact Hclear|]. split; [exact Hwf1|].
  split; [by rewrite size_spec, Hrefs|].
  split; [by unfold items_of; rewrite Hrefs|]. split; [exact Hstored|].
  split; [|by split].
  rewrite <- Hsnap. unfold items_of, refs_of. rewrite Hobjs, Harrs.
  rewrite lookup_app_l; [reflexivity|].
  rewrite Hfresh. rewrite getAll_spec in Hget. injection Hget as _ <-. cbn.
  rewrite length_app. cbn. lia.
Qed.

(** *** [size] *)

(** X13. [size()] is the number of items [getAll()] returns; [add]
    with [queueSubmissions = true] makes it one more, and [remove] of
    an item of the queue one less. *)
Theorem size_counts_items this ulid now data item w :
  wf w this ->
  OfflineOptions.queueSubmissions (OfflineQueue.options this) = true ->
  is_Some (list_find (same_id item) (items_of w (OfflineQueue.queue this))) ->
  let n := length (items_of w (OfflineQueue.queue this)) in
  OfflineQueue.size this w = (Normal n, w)
  /\ (exists w', OfflineQueue.add this ulid now data w = (Normal tt, w')
                 /\ OfflineQueue.size this w' = (Normal (S n), w'))
  /\ (exists w', OfflineQueue.remove this item w = (Normal tt, w')
                 /\ (OfflineQueue.size this w').1 = Normal (n - 1)%nat
                 /\ (0 < n)%nat).
Proof.
  intros Hwf Hqs [[index x] Hfind] n.
  assert (Hsize : forall w0, wf w0 this ->
            OfflineQueue.size this w0
            = (Normal (length (items_of w0 (OfflineQueue.queue this))), w0)).
  { intros w0 (_ & _ & Hv). rewrite size_spec. unfold items_of.
    by rewrite (deref_length _ _ Hv). }
  split; [by apply Hsize|]. split.
  - destruct (add_spec this ulid now data w Hwf Hqs) as (w' & Hadd & Hwf' & Hitems & _).
    exists w'. split; [exact Hadd|]. rewrite (Hsize w' Hwf'), Hitems, length_app.
    cbn. do 2 f_equal. unfold n. lia.
  - pose proof (remove_spec this item w Hwf) as Hspec. cbn zeta in Hspec.
    rewrite Hfind in Hspec. destruct Hspec as (w' & Hrem & Hwf' & Hitems & _).
    destruct (proj1 (list_find_Some _ _ _ _) Hfind) as (Hlook%lookup_lt_Some & _).
    exists w'. split; [exact Hrem|]. rewrite (Hsize w' Hwf'), Hitems, length_delete.
    + split; [reflexivity|]. unfold n. lia.
    + by apply lookup_lt_is_Some.
Qed.

(** *** A write the store refuses *)

(** X14. When [setItem] throws, [add(data)] still returns normally and
    the item is in the queue in memory, but the store holds what it held
    before, after one call of [setItem]. *)
Theorem add_when_store_refuses this ulid now data w text e :
  let q := OfflineQueue.queue this in
  let item := QueueItem.mk ulid data now 0 in
  wf w this ->
  OfflineOptions.queueSubmissions (OfflineQueue.options this) = true ->
  JSON_stringify_queue (items_of w q ++ [item]) = Some text ->
  setItem_throws (contents (localStorage w)) OfflineQueue.storageKey text = Some e ->
  exists w',
    OfflineQueue.add this ulid now data w = (Normal tt, w')
    /\ items_of w' q = items_of w q ++ [item]
    /\ contents (localStorage w') = contents (localStorage w)
    /\ attempts (localStorage w') = (OfflineQueue.storageKey, text) :: attempts (localStorage w).
Proof.
  intros q item Hwf Hqs Hs Hrefused.
  destruct (add_spec this ulid now data w Hwf Hqs) as (w' & Hadd & _ & Hitems & Hlocal & _).
  fold q item in Hitems, Hlocal.
  exists w'. split; [exact Hadd|]. split; [exact Hitems|]. rewrite Hlocal.
  split.
  - rewrite save_storage_contents, Hs, Hrefused. by destruct (items_of w q).
  - unfold save_storage. rewrite length_app, Nat.add_1_r. cbn [Nat.eqb].
    rewrite Hs. unfold setItem. by rewrite Hrefused.
Qed.

(** *** A queue that does not load *)

(** X15. With [enabled = false] the constructor does not call the
    store: the queue starts empty whatever the store holds.  The first
    [add] then saves a list of one item over what the store held. *)
Theorem unloaded_queue_overwrites opts now w ulid later data text :
  let item := QueueItem.mk ulid data later 0 in
  OfflineOptions.enabled opts = false ->
  OfflineOptions.queueSubmissions opts = true ->
  JSON_stringify_queue [item] = Some text ->
  setItem_throws (contents (localStorage w)) OfflineQueue.storageKey text = None ->
  exists this w1 w2,
    OfflineQueue.new opts now w = (Normal this, w1)
    /\ items_of w1 (OfflineQueue.queue this) = []
    /\ localStorage w1 = localStorage w
    /\ OfflineQueue.add this ulid later data w1 = (Normal tt, w2)
    /\ items_of w2 (OfflineQueue.queue this) = [item]
    /\ contents (localStorage w2)
       = <[OfflineQueue.storageKey := text]> (contents (localStorage w)).
Proof.
  intros item Hdis Hqs Hs Hok.
  unfold OfflineQueue.new. rewrite Hdis. unfold bind, alloc_array, ret.
  set (w1 := mkWorld _ _ _ _). set (this := OfflineQueue.mk opts _).
  destruct (wf_intro w1 this []) as [Hwf Hrefs]; [|constructor|constructor|].
  { unfold w1, this. cbn. by apply list_lookup_middle. }
  assert (Hempty : items_of w1 (OfflineQueue.queue this) = []).
  { unfold items_of. by rewrite Hrefs. }
  destruct (add_spec this ulid later data w1 Hwf Hqs)
    as (w2 & Hadd & _ & Hitems & Hlocal & _).
  rewrite Hempty in Hitems, Hlocal. cbn [app] in Hitems, Hlocal. fold item in Hitems, Hlocal.
  exists this, w1, w2. repeat (split; [done|]).
  rewrite Hlocal. by apply save_storage_written.
Qed.

(** *** Retrying again and again *)

Lemma list_find_incremented item index x (items : list (QueueItem.t Data)) :
  list_find (same_id item) items = Some (index, x) ->
  list_find (same_id item) (<[index := increment x]> items) = Some (index, increment x).
Proof.
  intros Hfind. destruct (proj1 (list_find_Some _ _ _ _) Hfind) as (Hlook & Hid & Hbefore).
  apply list_find_Some. split; [|split].
  - apply list_lookup_insert_eq. by eapply lookup_lt_Some.
  - exact Hid.
  - intros j y Hj Hlt. rewrite list_lookup_insert_ne in Hj by lia. by eapply Hbefore.
Qed.

Lemma increment_retryCount item : 
  QueueItem.retryCount (increment item) = QueueItem.retryCount item + 1.
Proof. reflexivity. Qed.

(** The item after [n] increments. *)
Lemma retry_times_spec this item n : forall w index x,
  wf w this ->
  list_find (same_id item) (items_of w (OfflineQueue.queue this)) = Some (index, x) ->
  exists w',
    retry_times this item n w
    = (Normal ((fun k => QueueItem.retryCount x + Z.of_nat k <? 3) <$> seq 1 n), w')
    /\ wf w' this
    /\ items_of w' (OfflineQueue.queue this)
       = <[index := QueueItem.mk (QueueItem.id x) (QueueItem.data x) (QueueItem.timestamp x)
                      (QueueItem.retryCount x + Z.of_nat n)]>
           (items_of w (OfflineQueue.queue this)).
Proof.
  induction n as [|n IH]; intros w index x Hwf Hfind.
  - exists w. split; [reflexivity|]. split; [exact Hwf|].
    destruct (proj1 (list_find_Some _ _ _ _) Hfind) as (Hlook & _).
    symmetry. apply list_insert_id. rewrite Hlook. f_equal.
    destruct x. cbn. f_equal. lia.
  - cbn [retry_times]. unfold bind at 1.
    destruct (incrementRetry_present this item w index x Hwf Hfind)
      as (w1 & -> & Hwf1 & Hitems1 & _).
    assert (Hfind1 : list_find (same_id item) (items_of w1 (OfflineQueue.queue this))
                     = Some (index, increment x)).
    { rewrite Hitems1. by apply list_find_incremented. }
    destruct (IH w1 index (increment x) Hwf1 Hfind1) as (w' & Hrest & Hwf' & Hitems').
    unfold bind. rewrite Hrest. exists w'. split; [|split; [exact Hwf'|]].
    + unfold ret. do 2 f_equal. cbn [seq fmap list_fmap]. f_equal.
      rewrite <- (fmap_S_seq 1 n), <- list_fmap_compose. apply list_fmap_ext.
      intros _ k _. cbn. f_equal. lia.
    + rewrite Hitems', Hitems1, list_insert_insert_eq. f_equal.
      cbn [increment QueueItem.id QueueItem.data QueueItem.timestamp QueueItem.retryCount].
      f_equal. lia.
Qed.

(** X16. [incrementRetry] never takes the item out of the queue and
    never lowers its [retryCount]: after [n] calls the item is where it
    was with [retryCount] raised by [n], and the call number [k] returned
    whether [retryCount + k < 3]; once a call has returned [false], every
    later one does. *)
Theorem incrementRetry_never_evicts this item n w index x :
  wf w this ->
  list_find (same_id item) (items_of w (OfflineQueue.queue this)) = Some (index, x) ->
  exists results w',
    retry_times this item n w = (Normal results, w')
    /\ results = (fun k => QueueItem.retryCount x + Z.of_nat k <? 3) <$> seq 1 n
    /\ items_of w' (OfflineQueue.queue this)
       = <[index := QueueItem.mk (QueueItem.id x) (QueueItem.data x) (QueueItem.timestamp x)
                      (QueueItem.retryCount x + Z.of_nat n)]>
           (items_of w (OfflineQueue.queue this))
    /\ (forall i j, (i <= j)%nat -> results !! i = Some false -> (j < length results)%nat ->
                    results !! j = Some false).
Proof.
  intros Hwf Hfind.
  destruct (retry_times_spec this item n w index x Hwf Hfind) as (w' & Hrun & _ & Hitems).
  eexists _, w'. split; [exact Hrun|]. split; [reflexivity|]. split; [exact Hitems|].
  intros i j Hij Hi Hj. rewrite length_fmap, length_seq in Hj.
  rewrite list_lookup_fmap in Hi |- *.
  destruct (seq 1 n !! i) as [k|] eqn:Hk; [|done].
  apply lookup_seq in Hk as [-> _]. cbn in Hi. injection Hi as Hi.
  rewrite lookup_seq_lt by lia. cbn. f_equal.
  apply Z.ltb_ge. apply Z.ltb_ge in Hi. lia.
Qed.

(** *** The items of a snapshot *)

(** X17. The array [getAll()] returns holds the item objects of the
    queue, not copies of them: a later [incrementRetry] on the queue
    shows in the [retryCount] of the item in that array. *)
Theorem snapshot_shares_items this item w index x :
  wf w this ->
  list_find (same_id item) (items_of w (OfflineQueue.queue this)) = Some (index, x) ->
  exists snapshot w1 r w2,
    OfflineQueue.getAll this w = (Normal snapshot, w1)
    /\ items_of w1 snapshot = items_of w (OfflineQueue.queue this)
    /\ OfflineQueue.incrementRetry this item w1 = (Normal r, w2)
    /\ items_of w2 snapshot
       = <[index := increment x]> (items_of w (OfflineQueue.queue this)).
Proof.
  intros Hwf Hfind.
  destruct (getAll_copy this w Hwf)
    as (snapshot & w1 & Hget & _ & _ & Hwf1 & Hrefs & Hsnap & Hq & _).
  pose proof (incrementRetry_spec this item w1 Hwf1) as Hspec. cbn zeta in Hspec.
  rewrite Hq, Hfind in Hspec.
  destruct Hspec as (w2 & Hinc & _ & Hitems & _ & _ & Harrs).
  exists snapshot, w1, (QueueItem.retryCount x + 1 <? OfflineQueue.maxRetries), w2.
  repeat (split; [done|]).
  assert (Hsame : refs_of w1 (OfflineQueue.queue this) = refs_of w (OfflineQueue.queue this)).
  { rewrite getAll_spec in Hget. injection Hget as _ <-.
    unfold refs_of. cbn. destruct Hwf as (Hlt & _). by rewrite lookup_app_l. }
  rewrite <- Hitems. unfold items_of. f_equal. unfold refs_of. rewrite Harrs.
  fold (refs_of w1 snapshot) (refs_of w1 (OfflineQueue.queue this)).
  by rewrite Hrefs, Hsame.
Qed.

(** *** Constructing twice *)

Lemma load_storage_stable now s :
  persists (loaded now (contents s !! OfflineQueue.storageKey)) (contents s) ->
  let s1 := load_storage now s in
  loaded now (contents s1 !! OfflineQueue.storageKey)
  = loaded now (contents s !! OfflineQueue.storageKey)
  /\ contents (load_storage now s1) = contents s1
  /\ attempts (load_storage now s1) = attempts s1.
Proof.
  intros Hp.
  assert (Hquiet : forall s0 : Storage,
            (forall text parsed,
                truthy (contents s0 !! OfflineQueue.storageKey) = Some text ->
                JSON_parse_queue text = Some parsed ->
                List.filter (retained now) parsed = parsed) ->
            contents (load_storage now s0) = contents s0
            /\ attempts (load_storage now s0) = attempts s0).
  { intros s0 Hall. unfold load_storage.
    destruct (truthy (contents s0 !! OfflineQueue.storageKey)) as [text|] eqn:Ht; [|done].
    destruct (JSON_parse_queue text) as [parsed|] eqn:Hparse; [|done].
    cbn zeta. rewrite (Hall text parsed eq_refl Hparse). by rewrite Nat.eqb_refl. }
  cbn zeta. remember (load_storage now s) as s1 eqn:Hs1.
  unfold load_storage in Hs1. unfold loaded in Hp |- *.
  destruct (truthy (contents s !! OfflineQueue.storageKey)) as [text|] eqn:Htruthy.
  2:{ subst s1. split; [cbn [log contents]; by rewrite Htruthy|]. apply Hquiet.
      cbn [log contents]. intros text parsed Ht. congruence. }
  destruct (JSON_parse_queue text) as [parsed|] eqn:Hparse.
  2:{ subst s1. split; [cbn [log contents]; by rewrite Htruthy, Hparse|]. apply Hquiet.
      cbn [log contents]. intros text' parsed' Ht. congruence. }
  cbn zeta in Hs1.
  destruct (Nat.eqb_spec (length (List.filter (retained now) parsed)) (length parsed))
    as [Hsame|Hdropped]; subst s1.
  - split; [cbn [log contents]; by rewrite Htruthy, Hparse|]. apply Hquiet.
    cbn [log contents]. intros text' parsed' Ht Hparse'.
    rewrite Htruthy in Ht. injection Ht as <-. rewrite Hparse in Hparse'.
    injection Hparse' as <-. by apply filter_all.
  - assert (Hidem : List.filter (retained now) (List.filter (retained now) parsed)
                    = List.filter (retained now) parsed) by apply filter_filter.
    set (kept := List.filter (retained now) parsed) in *.
    set (s0 := log (GetItem OfflineQueue.storageKey) s).
    assert (Hc0 : contents s0 = contents s) by reflexivity.
    destruct kept as [|item kept'].
    + split.
      * by rewrite save_storage_contents, lookup_delete_eq.
      * apply Hquiet. rewrite save_storage_contents, lookup_delete_eq. cbn. congruence.
    + destruct Hp as (text' & Hs & Hok & Hparse').
      assert (Hstored : contents (save_storage (item :: kept') s0)
                          !! OfflineQueue.storageKey = Some text').
      { rewrite save_storage_contents, Hs, Hc0, Hok. apply lookup_insert_eq. }
      split.
      * by rewrite Hstored, (truthy_stringified _ _ Hs), Hparse'.
      * apply Hquiet. rewrite Hstored, (truthy_stringified _ _ Hs).
        intros t p [= <-] Hp'. rewrite Hparse' in Hp'. by injection Hp' as <-.
Qed.

(** X18. Constructing the queue a second time, at the same time,
    gives the same items and writes nothing: what the first
    construction leaves in the store is what it loaded. *)
Theorem reload_is_stable opts opts' now w :
  OfflineOptions.enabled opts = true ->
  OfflineOptions.enabled opts' = true ->
  persists (loaded now (contents (localStorage w) !! OfflineQueue.storageKey))
    (contents (localStorage w)) ->
  exists first w1 second w2,
    OfflineQueue.new opts now w = (Normal first, w1)
    /\ OfflineQueue.new opts' now w1 = (Normal second, w2)
    /\ items_of w2 (OfflineQueue.queue second) = items_of w1 (OfflineQueue.queue first)
    /\ contents (localStorage w2) = contents (localStorage w1)
    /\ attempts (localStorage w2) = attempts (localStorage w1).
Proof.
  intros Hen Hen' Hp.
  destruct (new_queue_spec opts now w Hen)
    as (first & w1 & Hnew1 & _ & _ & _ & Hitems1 & Hlocal1 & _).
  destruct (new_queue_spec opts' now w1 Hen')
    as (second & w2 & Hnew2 & _ & _ & _ & Hitems2 & Hlocal2 & _).
  change "mail818_offline_queue" with OfflineQueue.storageKey in Hitems1, Hitems2.
  destruct (load_storage_stable now (localStorage w) Hp) as (Hsame & Hc & Ha).
  exists first, w1, second, w2. repeat (split; [done|]).
  rewrite Hitems2, Hitems1, Hlocal2, Hlocal1. by rewrite Hsame.
Qed.

(** *** The cache and the queue in one store *)

(** X19. The key of the queue starts with the prefix of the cache: on
    [localStorage], [clear()] of a cache manager removes the saved queue
    with the cache entries, and a queue constructed afterwards is
    empty. *)
Theorem cache_clear_drops_queue cache w opts now :
  CacheManager.storage cache = localStorageKind ->
  OfflineOptions.enabled opts = true ->
  exists w1 reloaded w2,
    on_storage (CacheManager.storage cache) (CacheManager.clear cache) w = (Normal tt, w1)
    /\ contents (localStorage w1) !! OfflineQueue.storageKey = None
    /\ OfflineQueue.new opts now w1 = (Normal reloaded, w2)
    /\ items_of w2 (OfflineQueue.queue reloaded) = [].
Proof.
  intros Hlocal Hen. rewrite Hlocal. unfold on_storage.
  destruct (clear_spec cache (localStorage w)) as (s1 & -> & _ & Hlook).
  set (w1 := mkWorld _ _ _ _).
  assert (Hgone : contents (localStorage w1) !! OfflineQueue.storageKey = None).
  { unfold w1. cbn [localStorage]. by rewrite Hlook. }
  destruct (new_queue_spec opts now w1 Hen)
    as (reloaded & w2 & Hnew & _ & _ & _ & Hitems & _).
  change "mail818_offline_queue" with OfflineQueue.storageKey in Hitems.
  rewrite Hgone in Hitems.
  by exists w1, reloaded, w2.
Qed.

(** *** Replaying the queue *)

Lemma list_find_middle (item x : QueueItem.t Data) before after :
  Forall (fun other => QueueItem.id other <> QueueItem.id item) before ->
  QueueItem.id x = QueueItem.id item ->
  list_find (same_id item) (before ++ x :: after) = Some (length before, x).
Proof.
  intros Hother Hx. induction Hother as [|y items Hy _ IH]; cbn [app list_find length].
  - by rewrite decide_True.
  - rewrite decide_False by exact Hy. by rewrite IH.
Qed.

Lemma replay_spec this delivered (refs : list nat) : forall i before w,
  wf w this ->
  Forall (fun r => (r < length (objects w))%nat) refs ->
  items_of w (OfflineQueue.queue this) = before ++ deref (objects w) refs ->
  NoDup (QueueItem.id <$> items_of w (OfflineQueue.queue this)) ->
  exists w',
    Mail818Form.replay this delivered i refs w = (Normal tt, w')
    /\ wf w' this
    /\ items_of w' (OfflineQueue.queue this)
       = before ++ undelivered delivered i (deref (objects w) refs)
    /\ objects w' = objects w
    /\ (forall a, a <> OfflineQueue.queue this -> arrays w' !! a = arrays w !! a).
Proof.
  induction refs as [|r refs IH]; intros i before w Hwf Hv Hitems Hnd.
  - exists w. split; [reflexivity|]. split; [exact Hwf|]. split; [exact Hitems|]. by split.
  - apply Forall_cons in Hv as [Hr Hv].
    destruct (lookup_lt_is_Some_2 (objects w) r Hr) as [x Hx].
    assert (Hderef : deref (objects w) (r :: refs) = x :: deref (objects w) refs).
    { unfold deref. cbn. by rewrite Hx. }
    rewrite Hderef in Hitems |- *. cbn [Mail818Form.replay undelivered].
    unfold bind at 1. destruct (delivered i).
    + unfold bind at 1. unfold read_object at 1. rewrite Hx.
      pose proof (remove_spec this x w Hwf) as Hspec. cbn zeta in Hspec.
      assert (Hbefore : Forall (fun other => QueueItem.id other <> QueueItem.id x) before).
      { rewrite Hitems, fmap_app in Hnd. apply NoDup_app in Hnd as (_ & Hdisj & _).
        apply Forall_forall. intros other Hin Heq.
        apply (Hdisj (QueueItem.id other)); [by apply list_elem_of_fmap_2|].
        rewrite Heq. cbn. apply elem_of_cons. by left. }
      rewrite Hitems, (list_find_middle x x before _ Hbefore eq_refl) in Hspec.
      destruct Hspec as (w1 & -> & Hwf1 & Hitems1 & _ & _ & Hobjs & Harrs).
      rewrite delete_middle in Hitems1.
      destruct (IH (S i) before w1 Hwf1) as (w' & Hrest & Hwf' & Hitems' & Hobjs' & Harrs').
      * by rewrite Hobjs.
      * by rewrite Hitems1, Hobjs.
      * rewrite Hitems1. rewrite Hitems in Hnd.
        rewrite fmap_app in Hnd |- *. cbn in Hnd.
        apply NoDup_app in Hnd as (Hnd1 & Hdisj & Hnd2).
        apply NoDup_cons in Hnd2 as [_ Hnd2].
        apply NoDup_app. split; [done|]. split; [|done].
        intros y Hy Hin. apply (Hdisj y Hy). apply elem_of_cons. by right.
      * exists w'. split; [exact Hrest|]. split; [exact Hwf'|].
        rewrite Hobjs in Hitems', Hobjs'. split; [exact Hitems'|]. split; [exact Hobjs'|].
        intros a Ha. rewrite (Harrs' a Ha), Harrs. by apply list_lookup_insert_ne.
    + unfold ret at 1.
      destruct (IH (S i) (before ++ [x]) w Hwf Hv) as (w' & Hrest & Hwf' & Hitems' & Hrem).
      * by rewrite Hitems, <- app_assoc.
      * exact Hnd.
      * exists w'. split; [exact Hrest|]. split; [exact Hwf'|].
        split; [|exact Hrem]. by rewrite Hitems', <- app_assoc.
Qed.

(** X20. [processOfflineQueue()], online, on a queue whose items have
    distinct identifiers, removes from the queue the items whose
    submission was delivered and keeps the others in their order;
    offline, or without a queue, it does nothing. *)
Theorem processOfflineQueue_removes_delivered this delivered w :
  wf w this ->
  NoDup (QueueItem.id <$> items_of w (OfflineQueue.queue this)) ->
  (exists w',
      Mail818Form.processOfflineQueue (Some this) true delivered w = (Normal tt, w')
      /\ wf w' this
      /\ items_of w' (OfflineQueue.queue this)
         = undelivered delivered 0 (items_of w (OfflineQueue.queue this)))
  /\ Mail818Form.processOfflineQueue (Some this) false delivered w = (Normal tt, w)
  /\ Mail818Form.processOfflineQueue None true delivered w = (Normal tt, w).
Proof.
  intros Hwf Hnd. split; [|by split].
  unfold Mail818Form.processOfflineQueue. cbn [negb]. unfold bind at 1.
  destruct (getAll_copy this w Hwf)
    as (snapshot & w1 & Hget & _ & _ & Hwf1 & Hrefs & _ & Hq & _).
  assert (Hobjs : objects w1 = objects w).
  { rewrite getAll_spec in Hget. by injection Hget as _ <-. }
  rewrite Hget. unfold bind at 1. unfold read_array at 1.
  fold (refs_of w1 snapshot). rewrite Hrefs.
  destruct (replay_spec this delivered (refs_of w (OfflineQueue.queue this)) 0 [] w1 Hwf1)
    as (w' & Hreplay & Hwf' & Hitems & _).
  - rewrite Hobjs. by destruct Hwf as (_ & _ & Hv).
  - by rewrite Hq, Hobjs.
  - by rewrite Hq.
  - exists w'. split; [exact Hreplay|]. split; [exact Hwf'|].
    rewrite Hitems, Hobjs. reflexivity.
Qed.
End QueueFurther.

(** * The identifiers of queue items *)

Section StringTheory.

Lemma length_append (a b : string) :
  String.length (a +:+ b) = (String.length a + String.length b)%nat.
Proof. induction a as [|c a IH]; simpl; [reflexivity|]. by rewrite IH. Qed.

Lemma length_toUpperCase (s : string) :
  String.length (toUpperCase s) = String.length s.
Proof. induction s as [|c s IH]; simpl; [reflexivity|]. by rewrite IH. Qed.

Lemma length_fill (n : nat) (c : ascii) :
  String.length (string_of_list_ascii (repeat c n)) = n.
Proof. induction n as [|n IH]; simpl; [reflexivity|]. by rewrite IH. Qed.

Lemma length_padStart (n : nat) (c : ascii) (s : string) :
  String.length (padStart n c s) = (n `max` String.length s)%nat.
Proof. unfold padStart. rewrite length_append, length_fill. lia. Qed.

Lemma length_substring (n m : nat) (s : string) :
  String.length (substring n m s) = (m `min` (String.length s - n))%nat.
Proof.
  revert n m. induction s as [|c s IH]; intros [|n] [|m];
    cbn [substring String.length]; rewrite ?IH; lia.
Qed.

Lemma substring_append (a b : string) (m : nat) :
  substring 0 (String.length a + m) (a +:+ b) = a +:+ substring 0 m b.
Proof. induction a as [|c a IH]; simpl; [reflexivity|]. by rewrite IH. Qed.

Lemma substring_prefix (a b : string) :
  substring 0 (String.length a) (a +:+ b) = a.
Proof. induction a as [|c a IH]; simpl; [by destruct b|]. by rewrite IH. Qed.

Lemma toUpperCase_append (a b : string) :
  toUpperCase (a +:+ b) = toUpperCase a +:+ toUpperCase b.
Proof. induction a as [|c a IH]; simpl; [reflexivity|]. by rewrite IH. Qed.

Lemma append_assoc (a b c : string) : (a +:+ b) +:+ c = a +:+ (b +:+ c).
Proof.
  induction a as [|x a IH]; [reflexivity|].
  change (String x ((a +:+ b) +:+ c) = String x (a +:+ (b +:+ c))).
  by rewrite IH.
Qed.

Lemma append_empty (a : string) : a +:+ EmptyString = a.
Proof.
  induction a as [|x a IH]; [reflexivity|].
  change (String x (a +:+ EmptyString) = String x a). by rewrite IH.
Qed.

Lemma all_chars_append (P : ascii -> bool) (a b : string) :
  all_chars P a -> all_chars P b -> all_chars P (a +:+ b).
Proof.
  unfold all_chars. induction a as [|c a IH]; simpl; [auto|].
  intros Ha Hb. inversion Ha; subst. constructor; auto.
Qed.

Lemma compare_append_Lt (a b x y : string) :
  String.length a = String.length b ->
  String.compare a b = Lt ->
  String.compare (a +:+ x) (b +:+ y) = Lt.
Proof.
  revert b. induction a as [|c a IH]; intros [|d b]; simpl; try discriminate.
  intros Hlen. destruct (Ascii.compare c d); try done.
  apply IH. congruence.
Qed.

End StringTheory.

(** Strings of digits of one length are ordered as the numbers they
    denote, when the digits are ordered as their values. *)
Section Positional.
Variable base : Z.
Variable value : ascii -> Z.
Variable valid : ascii -> bool.
Hypothesis value_range : forall c, valid c = true -> 0 <= value c < base.
Hypothesis value_order : forall c1 c2, valid c1 = true -> valid c2 = true ->
  Ascii.compare c1 c2 = (value c1 ?= value c2).

Lemma number_of_acc (acc : Z) (s : string) :
  number_of base value acc s
  = acc * base ^ Z.of_nat (String.length s) + number_of base value 0 s.
Proof.
  revert acc. induction s as [|c s IH]; intros acc; simpl String.length.
  - simpl. lia.
  - cbn [number_of]. rewrite IH, (IH (0 * base + value c)).
    rewrite Nat2Z.inj_succ, Z.pow_succ_r by lia. ring.
Qed.

Lemma number_of_append (acc : Z) (a b : string) :
  number_of base value acc (a +:+ b)
  = number_of base value (number_of base value acc a) b.
Proof. revert acc. induction a as [|c a IH]; intros acc; simpl; auto. Qed.

Lemma number_of_range (s : string) :
  all_chars valid s ->
  0 <= number_of base value 0 s < base ^ Z.of_nat (String.length s).
Proof.
  unfold all_chars. induction s as [|c s IH]; simpl list_ascii_of_string; intros Hs.
  - simpl. lia.
  - inversion Hs as [|? ? Hc Hs']; subst. specialize (IH Hs').
    cbn [number_of]. rewrite number_of_acc. simpl String.length.
    rewrite Nat2Z.inj_succ, Z.pow_succ_r by lia.
    pose proof (value_range c Hc). nia.
Qed.

Lemma compare_number_of (s1 s2 : string) :
  all_chars valid s1 -> all_chars valid s2 ->
  String.length s1 = String.length s2 ->
  String.compare s1 s2
  = (number_of base value 0 s1 ?= number_of base value 0 s2).
Proof.
  revert s2. induction s1 as [|c1 s1 IH]; intros [|c2 s2]; try discriminate.
  - reflexivity.
  - intros H1 H2 Hlen. unfold all_chars in H1, H2. simpl in H1, H2.
    inversion H1 as [|? ? Hc1 H1']; inversion H2 as [|? ? Hc2 H2']; subst.
    injection Hlen as Hlen.
    pose proof (number_of_range s1 H1') as R1.
    pose proof (number_of_range s2 H2') as R2.
    pose proof (value_range c1 Hc1) as V1.
    pose proof (value_range c2 Hc2) as V2.
    cbn [String.compare number_of].
    rewrite (number_of_acc (0 * base + value c1)), (number_of_acc (0 * base + value c2)).
    rewrite (value_order c1 c2 Hc1 Hc2), (IH s2 H1' H2' Hlen), <- Hlen.
    rewrite <- Hlen in R2.
    set (p := base ^ Z.of_nat (String.length s1)) in *.
    set (n1 := number_of base value 0 s1) in *.
    set (n2 := number_of base value 0 s2) in *.
    destruct (Z.compare_spec (value c1) (value c2)) as [Heq|Hlt|Hgt].
    + rewrite Heq. symmetry. apply Z.add_compare_mono_l.
    + symmetry. apply Z.compare_lt_iff.
      assert ((value c1 + 1) * p <= value c2 * p) by nia. lia.
    + symmetry. apply Z.compare_gt_iff.
      assert ((value c2 + 1) * p <= value c1 * p) by nia. lia.
Qed.

End Positional.

Section IdentifierTheory.

Lemma value36_range (c : ascii) : is_digit36 c = true -> 0 <= value36 c < 36.
Proof.
  unfold is_digit36, value36. cbv zeta.
  destruct (Z.leb_spec (Z.of_N (N_of_ascii c)) 57); lia.
Qed.

Lemma value36_order (c1 c2 : ascii) :
  is_digit36 c1 = true -> is_digit36 c2 = true ->
  Ascii.compare c1 c2 = (value36 c1 ?= value36 c2).
Proof.
  unfold is_digit36, value36, Ascii.compare. cbv zeta.
  rewrite <- N2Z.inj_compare.
  set (n1 := Z.of_N (N_of_ascii c1)). set (n2 := Z.of_N (N_of_ascii c2)).
  intros H1 H2.
  destruct (Z.leb_spec n1 57), (Z.leb_spec n2 57);
    destruct (Z.compare_spec n1 n2); symmetry;
    first [apply Z.compare_eq_iff | apply Z.compare_lt_iff | apply Z.compare_gt_iff];
    lia.
Qed.

(** The upper-case form of a digit of [toString(36)] is a digit of base
    36, and has the digit's value. *)
Lemma digit36_upper (d : Z) :
  0 <= d < 36 ->
  is_digit36 (upper_ascii (digit36 d)) = true
  /\ value36 (upper_ascii (digit36 d)) = d.
Proof.
  intros Hd. assert (exists k : nat, d = Z.of_nat k /\ (k < 36)%nat) as (k & -> & Hk).
  { exists (Z.to_nat d). lia. }
  do 36 (destruct k as [|k]; [split; reflexivity|]). lia.
Qed.

Lemma digits36_spec (fuel : nat) : forall (n : Z) (acc : string),
  0 <= n < 2 ^ Z.of_nat fuel ->
  exists ds,
    digits36 fuel n acc = ds +:+ acc
    /\ all_chars is_digit36 (toUpperCase ds)
    /\ number_of 36 value36 0 (toUpperCase ds) = n
    /\ forall k : nat, (1 <= k)%nat -> n < 36 ^ Z.of_nat k ->
         (String.length ds <= k)%nat.
Proof.
  induction fuel as [|fuel IH]; intros n acc Hn.
  - exists EmptyString. simpl in *. repeat split; [constructor|lia|lia].
  - rewrite Nat2Z.inj_succ, Z.pow_succ_r in Hn by lia.
    cbn [digits36]. cbv zeta.
    destruct (Z.eqb_spec (n / 36) 0) as [Hq|Hq].
    + assert (n < 36) as Hlt.
      { destruct (Z.lt_ge_cases n 36); [done|].
        assert (1 <= n / 36) by (apply Z.div_le_lower_bound; lia). lia. }
      rewrite Z.mod_small by lia.
      destruct (digit36_upper n) as [Hv Hval]; [lia|].
      exists (String (digit36 n) EmptyString). repeat split.
      * repeat constructor. exact Hv.
      * cbn [toUpperCase number_of]. rewrite Hval. lia.
      * simpl. lia.
    + assert (0 <= n / 36) by (apply Z.div_pos; lia).
      assert (n / 36 < 2 ^ Z.of_nat fuel) as Hq'.
      { apply Z.div_lt_upper_bound; lia. }
      destruct (IH (n / 36) (String (digit36 (n mod 36)) acc)) as (ds & Hds & Hall & Hnum & Hlen);
        [lia|].
      pose proof (Z.mod_pos_bound n 36 ltac:(lia)) as Hm.
      destruct (digit36_upper (n mod 36) Hm) as [Hv Hval].
      exists (ds +:+ String (digit36 (n mod 36)) EmptyString). repeat split.
      * rewrite Hds, append_assoc. reflexivity.
      * rewrite toUpperCase_append. apply all_chars_append; [exact Hall|].
        repeat constructor. exact Hv.
      * rewrite toUpperCase_append, number_of_append, Hnum.
        cbn [toUpperCase number_of]. rewrite Hval.
        pose proof (Z.div_mod n 36 ltac:(lia)). lia.
      * intros k Hk Hnk. rewrite length_append. simpl String.length.
        destruct k as [|[|k]]; [lia| |].
        { change (36 ^ Z.of_nat 1) with 36 in Hnk.
          rewrite Z.div_small in Hq by lia. done. }
        assert (String.length ds <= S k)%nat; [|lia].
        apply Hlen; [lia|].
        rewrite (Nat2Z.inj_succ (S k)), Z.pow_succ_r in Hnk by lia.
        apply Z.div_lt_upper_bound; lia.
Qed.

Lemma all_chars_fill (n : nat) :
  all_chars is_digit36 (string_of_list_ascii (repeat "0"%char n)).
Proof.
  unfold all_chars. induction n as [|n IH]; simpl; constructor; [reflexivity|exact IH].
Qed.

Lemma number_of_fill (n : nat) :
  number_of 36 value36 0 (string_of_list_ascii (repeat "0"%char n)) = 0.
Proof. induction n as [|n IH]; simpl; [reflexivity|exact IH]. Qed.

(** The first part of an identifier, for a time below [36 ^ 10]. *)
Lemma timestampStr_spec (now : Z) :
  0 <= now < 36 ^ 10 ->
  let timestampStr := padStart 10 "0" (toUpperCase (toString36 now)) in
  String.length timestampStr = 10%nat
  /\ all_chars is_digit36 timestampStr
  /\ number_of 36 value36 0 timestampStr = now.
Proof.
  intros Hnow. cbv zeta. unfold toString36.
  destruct (Z.ltb_spec now 0) as [?|_]; [lia|].
  destruct (digits36_spec (S (Z.to_nat (Z.log2 now))) now EmptyString)
    as (ds & Hds & Hall & Hnum & Hlen).
  { split; [lia|]. destruct (Z.eq_dec now 0) as [->|]; [simpl; lia|].
    rewrite Nat2Z.inj_succ, Z2Nat.id by apply Z.log2_nonneg.
    apply Z.log2_spec. lia. }
  rewrite Hds, append_empty.
  specialize (Hlen 10%nat ltac:(lia) ltac:(lia)).
  repeat split.
  - rewrite length_padStart, length_toUpperCase. lia.
  - unfold padStart. apply all_chars_append; [apply all_chars_fill|exact Hall].
  - unfold padStart. rewrite number_of_append, number_of_fill. exact Hnum.
Qed.

Lemma generateULID_split (now : Z) (random : string) :
  0 <= now < 36 ^ 10 ->
  OfflineQueue.generateULID now random
  = padStart 10 "0" (toUpperCase (toString36 now))
    +:+ padStart 16 "0" (toUpperCase (substring 2 16 random)).
Proof.
  intros Hnow. destruct (timestampStr_spec now Hnow) as (Hlen & _ & _).
  unfold OfflineQueue.generateULID. cbv zeta.
  set (t := padStart 10 "0" (toUpperCase (toString36 now))) in *.
  set (r := padStart 16 "0" (toUpperCase (substring 2 16 random))).
  assert (String.length r = 16%nat) as Hr.
  { unfold r. rewrite length_padStart, length_toUpperCase, length_substring. lia. }
  clearbody t r.
  replace 26%nat with (String.length t + 16)%nat by (rewrite Hlen; reflexivity).
  rewrite substring_append. f_equal.
  transitivity (substring 0 (String.length r) (r +:+ EmptyString)).
  - by rewrite append_empty, Hr.
  - apply substring_prefix.
Qed.

(** X21. Whatever the clock and [Math.random] give, the identifier
    [generateULID] returns has 26 characters. *)
Theorem generateULID_length (now : Z) (random : string) :
  String.length (OfflineQueue.generateULID now random) = 26%nat.
Proof.
  unfold OfflineQueue.generateULID. cbv zeta.
  rewrite length_substring, length_append, !length_padStart. lia.
Qed.

(** X22. For a time from 0 to below [36 ^ 10], the first ten characters
    of the identifier are upper-case digits of base 36 that denote the
    time; so identifiers generated at different times are different. *)
Theorem generateULID_timestamp (now : Z) (random : string) :
  0 <= now < 36 ^ 10 ->
  all_chars is_digit36 (substring 0 10 (OfflineQueue.generateULID now random))
  /\ number_of 36 value36 0 (substring 0 10 (OfflineQueue.generateULID now random)) = now.
Proof.
  intros Hnow. destruct (timestampStr_spec now Hnow) as (Hlen & Hall & Hnum).
  rewrite generateULID_split by exact Hnow.
  set (t := padStart 10 "0" (toUpperCase (toString36 now))) in *.
  set (r := padStart 16 "0" (toUpperCase (substring 2 16 random))).
  clearbody t r. rewrite <- Hlen, substring_prefix. split; assumption.
Qed.

(** X23. Identifiers sort by time: for times from 0 to below [36 ^ 10],
    the identifier of the earlier time is below the identifier of the
    later one in the order of strings, whatever the random parts. *)
Theorem generateULID_sortable (now1 now2 : Z) (random1 random2 : string) :
  0 <= now1 -> now1 < now2 -> now2 < 36 ^ 10 ->
  String.ltb (OfflineQueue.generateULID now1 random1) (OfflineQueue.generateULID now2 random2) = true.
Proof.
  intros H0 Hlt Hmax.
  destruct (timestampStr_spec now1 ltac:(lia)) as (Hlen1 & Hall1 & Hnum1).
  destruct (timestampStr_spec now2 ltac:(lia)) as (Hlen2 & Hall2 & Hnum2).
  rewrite !generateULID_split by lia.
  unfold String.ltb. rewrite compare_append_Lt; [reflexivity|congruence|].
  rewrite (compare_number_of 36 value36 is_digit36 value36_range value36_order)
    by (assumption || congruence).
  rewrite Hnum1, Hnum2. by apply Z.compare_lt_iff.
Qed.

End IdentifierTheory.

(** * The identifiers of the utilities *)

Section UtilsTheory.

Lemma substring_one_In (s : string) : forall (n : nat) (c : ascii),
  substring n 1 s = String c EmptyString -> In c (list_ascii_of_string s).
Proof.
  induction s as [|x s IH]; intros [|n] c; cbn [substring list_ascii_of_string];
    try discriminate.
  - destruct s; cbn [substring]; intros [= ->]; left; reflexivity.
  - intros Hn. right. by eapply IH.
Qed.

Lemma crockford_In (c : ascii) :
  is_crockford c = true -> In c (list_ascii_of_string Utils.ENCODING).
Proof.
  unfold is_crockford, crockford.
  destruct (index 0 (String c EmptyString) Utils.ENCODING) as [n|] eqn:E; [|discriminate].
  intros _. apply index_correct1 in E. by eapply substring_one_In.
Qed.

Lemma crockford_table :
  forallb (fun c1 =>
    (0 <=? crockford_value c1) && (crockford_value c1 <? 32)
    && forallb (fun c2 =>
         bool_decide (Ascii.compare c1 c2 = (crockford_value c1 ?= crockford_value c2)))
         (list_ascii_of_string Utils.ENCODING))
    (list_ascii_of_string Utils.ENCODING) = true.
Proof. vm_compute. reflexivity. Qed.

Lemma crockford_range (c : ascii) :
  is_crockford c = true -> 0 <= crockford_value c < 32.
Proof.
  intros Hc. pose proof crockford_table as T.
  rewrite forallb_forall in T. specialize (T c (crockford_In c Hc)).
  apply andb_prop in T as [T _]. apply andb_prop in T as [T1 T2]. lia.
Qed.

Lemma crockford_order (c1 c2 : ascii) :
  is_crockford c1 = true -> is_crockford c2 = true ->
  Ascii.compare c1 c2 = (crockford_value c1 ?= crockford_value c2).
Proof.
  intros H1 H2. pose proof crockford_table as T.
  rewrite forallb_forall in T. specialize (T c1 (crockford_In c1 H1)).
  apply andb_prop in T as [_ T].
  rewrite forallb_forall in T. specialize (T c2 (crockford_In c2 H2)).
  by apply bool_decide_eq_true in T.
Qed.

(** [ENCODING[d]] for a digit [d] *)
Lemma char_at_digit (d : Z) :
  0 <= d < 32 ->
  exists ch, Utils.char_at Utils.ENCODING d = String ch EmptyString
    /\ is_crockford ch = true /\ crockford_value ch = d.
Proof.
  intros Hd. assert (exists k : nat, d = Z.of_nat k /\ (k < 32)%nat) as (k & -> & Hk).
  { exists (Z.to_nat d). lia. }
  do 32 (destruct k as [|k]; [eexists; split; [reflexivity|split; reflexivity]|]). lia.
Qed.

Lemma encode_time_spec (count : nat) : forall (time : Z) (timestamp : string),
  0 <= time ->
  exists ds,
    Utils.encode_time count time timestamp = ds +:+ timestamp
    /\ String.length ds = count
    /\ all_chars is_crockford ds
    /\ number_of 32 crockford_value 0 ds = time mod 32 ^ Z.of_nat count.
Proof.
  induction count as [|count IH]; intros time timestamp Htime.
  - exists EmptyString. repeat split; [constructor|]. simpl. by rewrite Z.mod_1_r.
  - cbn [Utils.encode_time]. cbv zeta.
    rewrite Z.rem_mod_nonneg by lia.
    pose proof (Z.mod_pos_bound time 32 ltac:(lia)) as Hm.
    destruct (char_at_digit (time mod 32) Hm) as (ch & -> & Hch & Hval).
    destruct (IH (time / 32) (String ch EmptyString +:+ timestamp)) as (ds & -> & Hlen & Hall & Hnum).
    { apply Z.div_pos; lia. }
    exists (ds +:+ String ch EmptyString). repeat split.
    + by rewrite append_assoc.
    + rewrite length_append, Hlen. simpl. lia.
    + apply all_chars_append; [exact Hall|]. repeat constructor. exact Hch.
    + rewrite number_of_append, Hnum. cbn [number_of]. rewrite Hval.
      rewrite Nat2Z.inj_succ, Z.pow_succ_r by lia.
      rewrite (Z.rem_mul_r time 32 (32 ^ Z.of_nat count)) by lia. lia.
Qed.

Lemma encode_random_spec (count : nat) : forall (i : nat) (draw : nat -> Z) (random : string),
  (forall j, 0 <= draw j < 32) ->
  exists ds,
    Utils.encode_random count i draw random = random +:+ ds
    /\ String.length ds = count
    /\ all_chars is_crockford ds.
Proof.
  induction count as [|count IH]; intros i draw random Hdraw.
  - exists EmptyString. rewrite append_empty. repeat split. constructor.
  - cbn [Utils.encode_random].
    destruct (char_at_digit (draw i) (Hdraw i)) as (ch & -> & Hch & _).
    destruct (IH (S i) draw (random +:+ String ch EmptyString) Hdraw) as (ds & -> & Hlen & Hall).
    exists (String ch ds). repeat split.
    + by rewrite append_assoc.
    + simpl. by rewrite Hlen.
    + constructor; assumption.
Qed.

Lemma utils_timestamp (now : Z) (draw : nat -> Z) :
  0 <= now <= Utils.TIME_MAX ->
  exists timestamp,
    Utils.generateULID now draw
    = Some (timestamp +:+ Utils.encode_random Utils.RANDOM_LEN 0 draw EmptyString)
    /\ String.length timestamp = 10%nat
    /\ all_chars is_crockford timestamp
    /\ number_of 32 crockford_value 0 timestamp = now.
Proof.
  intros Hnow. unfold Utils.generateULID.
  destruct (Z.gtb_spec now Utils.TIME_MAX) as [?|_]; [lia|].
  destruct (encode_time_spec 10 now EmptyString) as (ds & -> & Hlen & Hall & Hnum); [lia|].
  exists ds. rewrite append_empty. repeat split; try assumption.
  rewrite Hnum. apply Z.mod_small. unfold Utils.TIME_MAX in Hnow. lia.
Qed.

(** X24. The utilities' [generateULID], for a clock from 0 to
    [2 ^ 48 - 1] and draws from 0 to 31, returns 26 digits of Crockford's
    base 32, the first ten of which denote the time. *)
Theorem utils_generateULID_spec (now : Z) (draw : nat -> Z) :
  0 <= now <= Utils.TIME_MAX ->
  (forall i, 0 <= draw i < 32) ->
  exists id,
    Utils.generateULID now draw = Some id
    /\ String.length id = 26%nat
    /\ all_chars is_crockford id
    /\ number_of 32 crockford_value 0 (substring 0 10 id) = now.
Proof.
  intros Hnow Hdraw.
  destruct (utils_timestamp now draw Hnow) as (t & -> & Hlen & Hall & Hnum).
  destruct (encode_random_spec Utils.RANDOM_LEN 0 draw EmptyString Hdraw)
    as (r & -> & Hr & Hallr).
  change (EmptyString +:+ r) with r.
  exists (t +:+ r). repeat split.
  - rewrite length_append, Hlen, Hr. reflexivity.
  - by apply all_chars_append.
  - rewrite <- Hlen, substring_prefix. exact Hnum.
Qed.

(** X25. The utilities' identifiers sort by time: for clocks from 0 to
    [2 ^ 48 - 1], the identifier of the earlier time is below the
    identifier of the later one in the order of strings, whatever is
    drawn. *)
Theorem utils_generateULID_sortable (now1 now2 : Z) (draw1 draw2 : nat -> Z) :
  0 <= now1 -> now1 < now2 -> now2 <= Utils.TIME_MAX ->
  exists id1 id2,
    Utils.generateULID now1 draw1 = Some id1
    /\ Utils.generateULID now2 draw2 = Some id2
    /\ String.ltb id1 id2 = true.
Proof.
  intros H0 Hlt Hmax.
  destruct (utils_timestamp now1 draw1 ltac:(lia)) as (t1 & -> & Hlen1 & Hall1 & Hnum1).
  destruct (utils_timestamp now2 draw2 ltac:(lia)) as (t2 & -> & Hlen2 & Hall2 & Hnum2).
  eexists _, _. split; [reflexivity|]. split; [reflexivity|].
  unfold String.ltb. rewrite compare_append_Lt; [reflexivity|congruence|].
  rewrite (compare_number_of 32 crockford_value is_crockford crockford_range crockford_order)
    by (assumption || congruence).
  rewrite Hnum1, Hnum2. by apply Z.compare_lt_iff.
Qed.

End UtilsTheory.

(** * The further properties on the reference host *)

Section CacheFurtherReference.
#[local] Existing Instance unbounded_host.

Lemma getSize_after_set_witness :
  let text := Json.print (Json.of_entry (CacheEntry.mk config 5000 None)) in
  exists before s0 s1 s2,
    CacheManager.getSize enabled_cache empty_storage = (Normal before, s0)
    /\ CacheManager.set enabled_cache 5000 5000 5000 "config_X" config None s0
       = (Normal tt, s1)
    /\ CacheManager.getSize enabled_cache s1
       = (Normal (before + String.length (CacheManager.prefix +:+ "config_X")
                  + String.length text)%nat, s2).
Proof.
  intros text.
  apply (getSize_after_set (H := unbounded_host) enabled_cache 5000 5000 5000
           "config_X" config None text empty_storage); reflexivity.
Defined.

Lemma remove_then_get_witness :
  let s := localStorage stale_window in
  exists s1 s2,
    CacheManager.remove enabled_cache "config_X" s = (Normal tt, s1)
    /\ contents s1 = delete (CacheManager.prefix +:+ "config_X") (contents s)
    /\ CacheManager.get enabled_cache 500 "config_X" s1 = (Normal None, s2)
    /\ forall key', key' <> "config_X" ->
          (CacheManager.get enabled_cache 500 key' s1).1
          = (CacheManager.get enabled_cache 500 key' s).1.
Proof.
  intros s.
  apply (remove_then_get (H := unbounded_host) enabled_cache 500 "config_X" s).
  reflexivity.
Defined.

Lemma getETag_after_set_witness :
  exists s1 s2,
    CacheManager.set enabled_cache 5000 5000 5000 "config_X" config (Some "W/7")
      empty_storage = (Normal tt, s1)
    /\ CacheManager.getETag (CacheManager.mk disabled) "config_X" s1
       = (Normal (truthy (Some "W/7")), s2)
    /\ contents s2 = contents s1.
Proof.
  apply (getETag_after_set (H := unbounded_host) enabled_cache 5000 5000 5000
           "config_X" config (Some "W/7")
           (Json.print (Json.of_entry (CacheEntry.mk config 5000 (Some "W/7"))))
           empty_storage (CacheManager.mk disabled)).
  - reflexivity.
  - reflexivity.
  - reflexivity.
  - by vm_compute.
Defined.

Lemma get_after_cleanExpired_witness :
  let s := localStorage stale_window in
  exists s1,
    CacheManager.cleanExpired enabled_cache 5000 s = (Normal tt, s1)
    /\ (CacheManager.get enabled_cache 6000 "config_X" s1).1
       = (CacheManager.get enabled_cache 6000 "config_X" s).1.
Proof.
  intros s.
  apply (get_after_cleanExpired (H := unbounded_host) enabled_cache 5000 6000 "config_X" s).
  - reflexivity.
  - lia.
Defined.

Lemma set_keeps_other_keys_witness :
  let s := localStorage stale_window in
  exists s1,
    CacheManager.set enabled_cache 5000 5000 5000 "config_Y" config None s = (Normal tt, s1)
    /\ (CacheManager.get enabled_cache 6000 "config_X" s1).1
       = (CacheManager.get enabled_cache 6000 "config_X" s).1.
Proof.
  intros s.
  apply (set_keeps_other_keys (H := unbounded_host) enabled_cache 5000 5000 5000 6000
           "config_Y" "config_X" config None s).
  - reflexivity.
  - discriminate.
  - lia.
Defined.

End CacheFurtherReference.

Section QueueFurtherReference.
#[local] Existing Instance unbounded_host.

Lemma empty_window_wf opts : wf empty_window (OfflineQueue.mk opts 0).
Proof. split; [cbn; lia|]. split; constructor. Qed.

Lemma one_item_window_loaded :
  loaded 1700000001000 (contents (localStorage one_item_window) !! OfflineQueue.storageKey)
  = [first_item].
Proof. vm_compute. reflexivity. Qed.

Lemma one_item_window_persists :
  persists
    (loaded 1700000001000
       (contents (localStorage one_item_window) !! OfflineQueue.storageKey))
    (contents (localStorage one_item_window)).
Proof.
  rewrite one_item_window_loaded.
  exists (Json.print (Json.Array [Json.of_item first_item])).
  split; [reflexivity|]. split; [reflexivity|]. by vm_compute.
Qed.

Lemma one_item_window_find :
  list_find (same_id first_item) (items_of one_item_window 0) = Some (0%nat, first_item).
Proof. vm_compute. reflexivity. Qed.

Lemma call_keeps_in_sync_witness :
  let this := OfflineQueue.mk accepting 0 in
  exists w',
    run_call this (@CallAdd unbounded_host new_id 1700000000500 (Json.String "b")) empty_window
    = (Normal tt, w')
    /\ wf w' this
    /\ (persists (items_of w' (OfflineQueue.queue this)) (contents (localStorage empty_window)) ->
        in_sync w' this).
Proof.
  intros this.
  apply (call_keeps_in_sync (H := unbounded_host) this
           (@CallAdd unbounded_host new_id 1700000000500 (Json.String "b")) empty_window).
  - apply empty_window_wf.
  - intros now. reflexivity.
Defined.

Lemma new_in_sync_witness :
  exists this w',
    OfflineQueue.new accepting 1700000001000 one_item_window = (Normal this, w')
    /\ wf w' this
    /\ in_sync w' this.
Proof.
  apply (new_in_sync (H := unbounded_host) accepting 1700000001000 one_item_window).
  - reflexivity.
  - apply one_item_window_persists.
Defined.

Lemma clear_empties_witness :
  let this := OfflineQueue.mk accepting 0 in
  exists snapshot w0 this' w1 reloaded w2,
    OfflineQueue.getAll this one_item_window = (Normal snapshot, w0)
    /\ OfflineQueue.clear this w0 = (Normal this', w1)
    /\ wf w1 this'
    /\ OfflineQueue.size this' w1 = (Normal 0%nat, w1)
    /\ items_of w1 (OfflineQueue.queue this') = []
    /\ contents (localStorage w1)
       = delete OfflineQueue.storageKey (contents (localStorage one_item_window))
    /\ items_of w1 snapshot = items_of one_item_window (OfflineQueue.queue this)
    /\ OfflineQueue.new accepting 1700000001000 w1 = (Normal reloaded, w2)
    /\ items_of w2 (OfflineQueue.queue reloaded) = [].
Proof.
  intros this.
  apply (clear_empties (H := unbounded_host) this one_item_window accepting 1700000001000).
  - apply one_item_window_wf.
  - reflexivity.
Defined.

Lemma size_counts_items_witness :
  let this := OfflineQueue.mk accepting 0 in
  let n := length (items_of one_item_window (OfflineQueue.queue this)) in
  OfflineQueue.size this one_item_window = (Normal n, one_item_window)
  /\ (exists w', OfflineQueue.add this new_id 1700000000500 (Json.String "b") one_item_window
                 = (Normal tt, w')
                 /\ OfflineQueue.size this w' = (Normal (S n), w'))
  /\ (exists w', OfflineQueue.remove this first_item one_item_window = (Normal tt, w')
                 /\ (OfflineQueue.size this w').1 = Normal (n - 1)%nat
                 /\ (0 < n)%nat).
Proof.
  intros this.
  apply (size_counts_items (H := unbounded_host) this new_id 1700000000500
           (Json.String "b") first_item one_item_window).
  - apply one_item_window_wf.
  - reflexivity.
  - eexists. apply one_item_window_find.
Defined.

Lemma unloaded_queue_overwrites_witness :
  let opts := OfflineOptions.mk false true true in
  let item := QueueItem.mk new_id (Json.String "b") 1700000000500 0 in
  let text := Json.print (Json.Array [Json.of_item item]) in
  exists this w1 w2,
    OfflineQueue.new opts 1700000000000 one_item_window = (Normal this, w1)
    /\ items_of w1 (OfflineQueue.queue this) = []
    /\ localStorage w1 = localStorage one_item_window
    /\ OfflineQueue.add this new_id 1700000000500 (Json.String "b") w1 = (Normal tt, w2)
    /\ items_of w2 (OfflineQueue.queue this) = [item]
    /\ contents (localStorage w2)
       = <[OfflineQueue.storageKey := text]> (contents (localStorage one_item_window)).
Proof.
  intros opts item text.
  apply (unloaded_queue_overwrites (H := unbounded_host) opts 1700000000000 one_item_window
           new_id 1700000000500 (Json.String "b") text); reflexivity.
Defined.

Lemma incrementRetry_never_evicts_witness :
  let this := OfflineQueue.mk accepting 0 in
  exists results w',
    retry_times this first_item 4 one_item_window = (Normal results, w')
    /\ results = (fun k => QueueItem.retryCount first_item + Z.of_nat k <? 3) <$> seq 1 4
    /\ items_of w' (OfflineQueue.queue this)
       = <[0%nat := QueueItem.mk (QueueItem.id first_item) (QueueItem.data first_item)
                      (QueueItem.timestamp first_item)
                      (QueueItem.retryCount first_item + Z.of_nat 4)]>
           (items_of one_item_window (OfflineQueue.queue this))
    /\ (forall i j, (i <= j)%nat -> results !! i = Some false -> (j < length results)%nat ->
                    results !! j = Some false).
Proof.
  intros this.
  apply (incrementRetry_never_evicts (H := unbounded_host) this first_item 4
           one_item_window 0%nat first_item).
  - apply one_item_window_wf.
  - apply one_item_window_find.
Defined.

Lemma snapshot_shares_items_witness :
  let this := OfflineQueue.mk accepting 0 in
  exists snapshot w1 r w2,
    OfflineQueue.getAll this one_item_window = (Normal snapshot, w1)
    /\ items_of w1 snapshot = items_of one_item_window (OfflineQueue.queue this)
    /\ OfflineQueue.incrementRetry this first_item w1 = (Normal r, w2)
    /\ items_of w2 snapshot
       = <[0%nat := increment first_item]>
           (items_of one_item_window (OfflineQueue.queue this)).
Proof.
  intros this.
  apply (snapshot_shares_items (H := unbounded_host) this first_item one_item_window
           0%nat first_item).
  - apply one_item_window_wf.
  - apply one_item_window_find.
Defined.

Lemma reload_is_stable_witness :
  exists first w1 second w2,
    OfflineQueue.new accepting 1700000001000 one_item_window = (Normal first, w1)
    /\ OfflineQueue.new draining 1700000001000 w1 = (Normal second, w2)
    /\ items_of w2 (OfflineQueue.queue second) = items_of w1 (OfflineQueue.queue first)
    /\ contents (localStorage w2) = contents (localStorage w1)
    /\ attempts (localStorage w2) = attempts (localStorage w1).
Proof.
  apply (reload_is_stable (H := unbounded_host) accepting draining 1700000001000
           one_item_window).
  - reflexivity.
  - reflexivity.
  - apply one_item_window_persists.
Defined.

Lemma cache_clear_drops_queue_witness :
  exists w1 reloaded w2,
    on_storage (CacheManager.storage enabled_cache) (CacheManager.clear enabled_cache)
      one_item_window = (Normal tt, w1)
    /\ contents (localStorage w1) !! OfflineQueue.storageKey = None
    /\ OfflineQueue.new accepting 1700000001000 w1 = (Normal reloaded, w2)
    /\ items_of w2 (OfflineQueue.queue reloaded) = [].
Proof.
  apply (cache_clear_drops_queue (H := unbounded_host) enabled_cache one_item_window
           accepting 1700000001000).
  - reflexivity.
  - reflexivity.
Defined.

Lemma processOfflineQueue_removes_delivered_witness :
  let this := OfflineQueue.mk accepting 0 in
  let delivered := fun _ : nat => true in
  (exists w',
      Mail818Form.processOfflineQueue (Some this) true delivered one_item_window
      = (Normal tt, w')
      /\ wf w' this
      /\ items_of w' (OfflineQueue.queue this)
         = undelivered delivered 0 (items_of one_item_window (OfflineQueue.queue this)))
  /\ Mail818Form.processOfflineQueue (Some this) false delivered one_item_window
     = (Normal tt, one_item_window)
  /\ Mail818Form.processOfflineQueue None true delivered one_item_window
     = (Normal tt, one_item_window).
Proof.
  intros this delivered.
  apply (processOfflineQueue_removes_delivered (H := unbounded_host) this delivered
           one_item_window).
  - apply one_item_window_wf.
  - apply NoDup_singleton.
Defined.

End QueueFurtherReference.

Section QuotaFurtherReference.
#[local] Existing Instance small_host.

Lemma add_when_store_refuses_witness :
  let this := OfflineQueue.mk accepting 0 in
  let item := QueueItem.mk new_id (Json.String "b") 1700000000500 0 in
  let text := Json.print (Json.Array [Json.of_item item]) in
  exists w',
    OfflineQueue.add this new_id 1700000000500 (Json.String "b") small_window
    = (Normal tt, w')
    /\ items_of w' (OfflineQueue.queue this)
       = items_of small_window (OfflineQueue.queue this) ++ [item]
    /\ contents (localStorage w') = contents (localStorage small_window)
    /\ attempts (localStorage w')
       = (OfflineQueue.storageKey, text) :: attempts (localStorage small_window).
Proof.
  intros this item text.
  apply (add_when_store_refuses (H := small_host) this new_id 1700000000500
           (Json.String "b") small_window text QuotaExceededError).
  - split; [cbn; lia|]. split; constructor.
  - reflexivity.
  - reflexivity.
  - by vm_compute.
Defined.

End QuotaFurtherReference.

Section IdentifierReference.

Lemma generateULID_timestamp_witness :
  all_chars is_digit36
    (substring 0 10 (OfflineQueue.generateULID 1700000000000 "0.4fzyo82mvyr"))
  /\ number_of 36 value36 0
       (substring 0 10 (OfflineQueue.generateULID 1700000000000 "0.4fzyo82mvyr"))
     = 1700000000000.
Proof.
  apply (generateULID_timestamp 1700000000000 "0.4fzyo82mvyr"). lia.
Defined.

Lemma generateULID_sortable_witness :
  String.ltb (OfflineQueue.generateULID 1700000000000 "0.zzzzzzzzzzz")
    (OfflineQueue.generateULID 1700000000001 "0.00000000001") = true.
Proof.
  apply (generateULID_sortable 1700000000000 1700000000001); lia.
Defined.

Lemma utils_generateULID_spec_witness :
  exists id,
    Utils.generateULID 1700000000000 (fun i => Z.of_nat i mod 32) = Some id
    /\ String.length id = 26%nat
    /\ all_chars is_crockford id
    /\ number_of 32 crockford_value 0 (substring 0 10 id) = 1700000000000.
Proof.
  apply (utils_generateULID_spec 1700000000000 (fun i => Z.of_nat i mod 32)).
  - vm_compute. split; discriminate.
  - intros i. apply Z.mod_pos_bound. lia.
Defined.

Lemma utils_generateULID_sortable_witness :
  exists id1 id2,
    Utils.generateULID 1700000000000 (fun _ => 31) = Some id1
    /\ Utils.generateULID 1700000000001 (fun _ => 0) = Some id2
    /\ String.ltb id1 id2 = true.
Proof.
  apply (utils_generateULID_sortable 1700000000000 1700000000001).
  - lia.
  - lia.
  - vm_compute. discriminate.
Defined.

End IdentifierReference.

(** * The queue on text of any shape *)

Section UntypedTheory.
Context `{Host}.
Variable JSON_parse : string -> option Json.value.
Variable JSON_stringify : list Json.value -> option string.
Variable ToNumber : Json.value -> completion Untyped.number.

Lemma property_pure {St} name v (s : St) :
  (Untyped.property name v s).2 = s.
Proof. by destruct v. Qed.

Lemma to_number_pure {St} v (s : St) :
  (Untyped.to_number ToNumber v s).2 = s.
Proof. by destruct v as [[]|]. Qed.

(** The callback reads and compares: it leaves the state as it is. *)
Lemma keeps_pure {St} cutoff item (s : St) :
  exists r, Untyped.keeps ToNumber cutoff item s = (r, s).
Proof.
  unfold Untyped.keeps, bind.
  pose proof (property_pure (St := St) "timestamp" item s) as Hp.
  destruct (Untyped.property "timestamp" item s) as [[timestamp|e] s1];
    cbn in Hp; subst s1; [|by eexists].
  pose proof (to_number_pure timestamp s) as Hn.
  destruct (Untyped.to_number ToNumber timestamp s) as [[x|e] s1];
    cbn in Hn; subst s1; [|by eexists].
  destruct (Untyped.greater_than x cutoff); [|by eexists].
  pose proof (property_pure (St := St) "retryCount" item s) as Hp'.
  destruct (Untyped.property "retryCount" item s) as [[retryCount|e] s1];
    cbn in Hp'; subst s1; [|by eexists].
  pose proof (to_number_pure retryCount s) as Hn'.
  destruct (Untyped.to_number ToNumber retryCount s) as [[y|e] s1];
    cbn in Hn'; subst s1; by eexists.
Qed.

Lemma filter_elements_pure {St} cutoff elements (s : St) :
  exists r, Untyped.filter_elements ToNumber cutoff elements s = (r, s).
Proof.
  induction elements as [|item rest IH]; [by eexists|].
  cbn [Untyped.filter_elements]. unfold bind.
  destruct (keeps_pure cutoff item s) as [[keep|e] ->]; [|by eexists].
  destruct IH as [[kept|e] ->]; by eexists.
Qed.


(** On the values of well-formed items the callback is the test of the
    typed reading, and [filter] keeps the items that pass it. *)
Lemma keeps_of_item {St} now (item : QueueItem.t Json.value) (s : St) :
  Untyped.keeps ToNumber (now - 7 * 24 * 60 * 60 * 1000) (Json.of_item item) s
  = (Normal ((QueueItem.timestamp item >? now - 7 * 24 * 60 * 60 * 1000)
             && (QueueItem.retryCount item <? OfflineQueue.maxRetries)), s).
Proof.
  unfold Untyped.keeps, bind. cbn.
  by destruct (QueueItem.timestamp item >? _).
Qed.

Lemma filter_elements_of_items {St} now (items : list (QueueItem.t Json.value)) (s : St) :
  Untyped.filter_elements ToNumber (now - 7 * 24 * 60 * 60 * 1000)
    (Json.of_item <$> items) s
  = (Normal (Json.of_item <$>
               List.filter
                 (fun item =>
                    (QueueItem.timestamp item >? now - 7 * 24 * 60 * 60 * 1000)
                    && (QueueItem.retryCount item <? OfflineQueue.maxRetries))
                 items), s).
Proof.
  induction items as [|item rest IH]; [reflexivity|].
  cbn [fmap list_fmap Untyped.filter_elements List.filter]. unfold bind.
  rewrite keeps_of_item. fold (@fmap list _ _ _ Json.of_item rest). rewrite IH.
  by destruct (_ && _).
Qed.

Lemma saveQueue_returns this s :
  exists s', Untyped.saveQueue JSON_stringify this s = (Normal tt, s').
Proof.
  unfold Untyped.saveQueue, try_catch, bind.
  destruct (_ =? _)%nat; [by eexists|].
  destruct (JSON_stringify _) as [text|]; cbn; [|by eexists].
  unfold setItem. destruct (setItem_throws _ _ _); by eexists.
Qed.

(** On the text of a list of well-formed items the constructor loads what
    the typed reading loads: the items that pass the test. *)
Lemma new_of_items opts now s stored (items : list (QueueItem.t Json.value)) :
  OfflineOptions.enabled opts = true ->
  contents s !! OfflineQueue.storageKey = Some stored ->
  stored <> EmptyString ->
  JSON_parse stored = Some (Json.Array (Json.of_item <$> items)) ->
  exists s',
    Untyped.new JSON_parse JSON_stringify ToNumber opts now s
    = (Normal (Untyped.mk opts
                 (Json.of_item <$>
                    List.filter
                      (fun item =>
                         (QueueItem.timestamp item >? now - 7 * 24 * 60 * 60 * 1000)
                         && (QueueItem.retryCount item <? OfflineQueue.maxRetries))
                      items)), s').
Proof.
  intros Hen Hstored Hne Hparse.
  unfold Untyped.new. rewrite Hen.
  unfold Untyped.loadQueue, try_catch, bind at 1, getItem. rewrite Hstored.
  destruct stored as [|c stored]; [done|]. cbn [truthy].
  unfold bind at 1. rewrite Hparse. cbn [parse_or_throw ret Untyped.filter].
  unfold bind at 1. rewrite filter_elements_of_items.
  cbn [Untyped.set_queue Untyped.queue Untyped.options].
  destruct (negb _); [|by eexists].
  unfold bind.
  match goal with
  | |- context [Untyped.saveQueue _ ?this ?st] =>
      destruct (saveQueue_returns this st) as [s' ->]
  end.
  by eexists.
Qed.




End UntypedTheory.

Section UntypedReference.
#[local] Existing Instance unbounded_host.



End UntypedReference.
